(** * Secure password generator: a shallow embedding of
      [src/utils/password_generator.py] and its verification.

    The Python class [PasswordGenerator] is embedded as Rocq functions with
    the same names.  Python [str] values are lists of characters, Python
    [int] arguments are [Z], list positions are [nat].  Exceptions and the
    consumption of randomness are threaded through a small state-and-error
    monad. *)

From Stdlib Require Import ZArith Ascii DecimalString.
From stdpp Require Import list strings.

Set Default Proof Using "Type".

(** ** Python values *)

(** A Python [str]: a sequence of characters.  Every table of the generator is
    ASCII. *)
Abbreviation str := (list ascii) (only parsing).

(** A string literal of the source, as a [str]. *)
Definition lit (s : string) : str := String.list_ascii_of_string s.

(** [c in s] for a character [c] and a [str] [s]. *)
Definition contains (s : str) (c : ascii) : bool := existsb (Ascii.eqb c) s.

(** [s == t] on [str]. *)
Fixpoint str_eqb (s t : str) : bool :=
  match s, t with
  | [], [] => true
  | c :: s', d :: t' => Ascii.eqb c d && str_eqb s' t'
  | _, _ => false
  end.

(** [range(n)] for a Python integer [n]: empty when [n <= 0]. *)
Definition range (n : Z) : list nat := seq 0 (Z.to_nat n).

(** The decimal rendering an f-string gives a non-negative [int]. *)
Definition decimal (n : nat) : string := NilEmpty.string_of_uint (Nat.to_uint n).

(** ** Exceptions, the random source and the monad *)

(** The two exception classes the module can raise, with their messages. *)
Inductive exn : Type :=
  | ValueError (msg : string)
  | IndexError (msg : string).

(** The operating system's entropy source, seen from one call: an unbounded
    tape of draws and the position of the next one.  The model has no
    probabilities; a statement "for every sequence of random draws" is a
    statement for every [rng]. *)
Record rng : Type := { tape : nat → nat; cursor : nat }.

(** The tape that starts with [draws] and continues with zeros. *)
Definition rng_of_list (draws : list nat) : rng :=
  {| tape := λ k, default 0 (draws !! k); cursor := 0 |}.

Inductive outcome (A : Type) : Type :=
  | Returned (a : A) (r : rng)
  | Raised (e : exn).
Arguments Returned {A} a r.
Arguments Raised {A} e.

Definition M (A : Type) : Type := rng → outcome A.

Definition raise {A} (e : exn) : M A := λ _, Raised e.

(** [M] is a monad in stdpp's sense, which gives the notation [x ← m; k]. *)
#[global] Instance M_ret : MRet M := λ A a r, Returned a r.
#[global] Instance M_bind : MBind M := λ A B k m r,
  match m r with
  | Returned a r' => k a r'
  | Raised e => Raised e
  end.

(** A [for x in xs:] statement whose body updates one local variable. *)
Fixpoint for_each {A S} (xs : list A) (body : A → S → M S) (s : S) : M S :=
  match xs with
  | [] => mret s
  | x :: xs' => s' ← body x s ; for_each xs' body s'
  end.

(** A comprehension [[e for x in xs]] (also a generator expression consumed
    by [''.join]). *)
Fixpoint collect {A B} (xs : list A) (e : A → M B) : M (list B) :=
  match xs with
  | [] => mret []
  | x :: xs' => b ← e x ; bs ← collect xs' e ; mret (b :: bs)
  end.

(** ** The [secrets] module *)

(** The source after one draw. *)
Definition advance (r : rng) : rng :=
  {| tape := tape r; cursor := S (cursor r) |}.

Module secrets.

(** [secrets.randbelow(n)]: an integer in [[0, n)]; [ValueError] for
    [n <= 0].  The library only promises the range: the model takes the next
    entry of the tape and brings it into the range, so every tape is
    admissible and every value below [n] is the result for some tape. *)
Definition randbelow (n : nat) : M nat :=
  λ r, match n with
       | 0 => Raised (ValueError "Upper bound must be positive.")
       | _ => Returned (tape r (cursor r) `mod` n) (advance r)
       end.

(** [secrets.choice(seq)]: [IndexError] on an empty sequence, else
    [seq[randbelow(len(seq))]]. *)
Definition choice (seq : str) : M ascii :=
  match seq with
  | [] => raise (IndexError "Cannot choose from an empty sequence")
  | _ => j ← randbelow (length seq) ;
         match seq !! j with
         | Some c => mret c
         | None => raise (IndexError "string index out of range")
         end
  end.

End secrets.

(** ** [PasswordGenerator] *)

(** *** The tables set by [__init__] *)

Definition lowercase : str := lit "abcdefghijklmnopqrstuvwxyz".
Definition uppercase : str := lit "ABCDEFGHIJKLMNOPQRSTUVWXYZ".
Definition digits : str := lit "0123456789".
Definition symbols : str := lit "!@#$%^&*()_+-=[]{}|;:,.<>?".
Definition ambiguous_chars : str :=
  ["0"; "O"; "1"; "l"; "I"; "|"; "`"; "'"; "034"]%char.

(** *** The messages of the three [raise] statements of [generate_password] *)

Definition InvalidLength : exn :=
  ValueError "Password length must be at least 4 characters".
Definition NoClassSelected : exn :=
  ValueError "At least one character type must be included".
Definition LengthTooShortForClasses (n : nat) : exn :=
  ValueError ("Password length must be at least " +:+ decimal n +:+
              " when ensuring minimum of each type").

(** *** Assembling the character set (lines 62-92) *)

(** [''.join(c for c in chars if c not in self.ambiguous_chars)] *)
Definition drop_ambiguous (chars : str) : str :=
  List.filter (λ c, negb (contains ambiguous_chars c)) chars.

(** The value of [chars] when a class is appended: the class table, filtered
    when [exclude_ambiguous] is set. *)
Definition class_chars (exclude_ambiguous : bool) (table : str) : str :=
  if exclude_ambiguous then drop_ambiguous table else table.

(** One of the four [if include_...:] blocks, acting on the pair
    [(char_set, selected_types)]. *)
Definition add_class (include exclude_ambiguous : bool) (table : str)
    (acc : str * list str) : str * list str :=
  if include then
    let chars := class_chars exclude_ambiguous table in
    (acc.1 ++ chars, acc.2 ++ [chars])
  else acc.

(** The four blocks in the order of the source, from the empty [char_set] and
    the empty list [selected_types]. *)
Definition build_char_set
    (include_lowercase include_uppercase include_digits include_symbols
     exclude_ambiguous : bool) : str * list str :=
  add_class include_symbols exclude_ambiguous symbols
    (add_class include_digits exclude_ambiguous digits
      (add_class include_uppercase exclude_ambiguous uppercase
        (add_class include_lowercase exclude_ambiguous lowercase ([], [])))).

(** *** The shuffle (lines 113-116) *)

(** [l[i], l[j] = l[j], l[i]]: the right-hand side reads [l[j]] and [l[i]],
    then [l[i]] and [l[j]] are assigned in this order.  A position outside the
    list raises [IndexError]. *)
Definition swap {A} (l : list A) (i j : nat) : M (list A) :=
  match l !! j, l !! i with
  | Some xj, Some xi => mret (<[j := xi]> (<[i := xj]> l))
  | _, _ => raise (IndexError "list index out of range")
  end.

(** One iteration of the loop: the partner [j] is drawn below the length of
    the whole list, for every [i]. *)
Definition shuffle_step {A} (i : nat) (password_list : list A) : M (list A) :=
  j ← secrets.randbelow (length password_list);
  swap password_list i j.

Definition shuffle {A} (password_chars : list A) : M (list A) :=
  let password_list := password_chars in
  for_each (range (Z.of_nat (length password_list))) shuffle_step password_list.

(** *** [generate_password] *)

(** The statement [password_chars.append(secrets.choice(chars))]. *)
Definition append_choice (chars : str) (password_chars : str) : M str :=
  c ← secrets.choice chars; mret (password_chars ++ [c]).

Definition generate_password (length : Z)
    (include_lowercase include_uppercase include_digits include_symbols
     exclude_ambiguous min_of_each_type : bool) : M str :=
  if (length <? 4)%Z then raise InvalidLength else
  let '(char_set, selected_types) :=
    build_char_set include_lowercase include_uppercase include_digits
                   include_symbols exclude_ambiguous in
  if bool_decide (char_set = []) then raise NoClassSelected else
  if min_of_each_type && bool_decide (0 < List.length selected_types) then
    if (length <? Z.of_nat (List.length selected_types))%Z then
      raise (LengthTooShortForClasses (List.length selected_types))
    else
      password_chars ←
        for_each selected_types (λ char_type, append_choice char_type) [];
      let remaining_length := (length - Z.of_nat (List.length selected_types))%Z in
      password_chars ←
        for_each (range remaining_length) (λ _, append_choice char_set)
          password_chars;
      shuffle password_chars
  else
    collect (range length) (λ _, secrets.choice char_set).

(** *** Validation and the enabled classes, for the statements below *)

(** The guards of the three [raise] statements, all false. *)
Definition passes_validation (length : Z)
    (include_lowercase include_uppercase include_digits include_symbols
     exclude_ambiguous min_of_each_type : bool) : bool :=
  let '(char_set, selected_types) :=
    build_char_set include_lowercase include_uppercase include_digits
                   include_symbols exclude_ambiguous in
  negb (length <? 4)%Z
  && negb (bool_decide (char_set = []))
  && negb (min_of_each_type && bool_decide (0 < List.length selected_types)
           && (length <? Z.of_nat (List.length selected_types))%Z).

(** The classes a call enables, each after filtering, in the order of the
    source. *)
Definition enabled_classes
    (include_lowercase include_uppercase include_digits include_symbols
     exclude_ambiguous : bool) : list str :=
  (if include_lowercase then [class_chars exclude_ambiguous lowercase] else [])
  ++ (if include_uppercase then [class_chars exclude_ambiguous uppercase] else [])
  ++ (if include_digits then [class_chars exclude_ambiguous digits] else [])
  ++ (if include_symbols then [class_chars exclude_ambiguous symbols] else []).

(** *** [generate_multiple_passwords] *)

(** The keyword arguments a caller passes on; an argument that is not given
    takes the default of [generate_password]'s signature. *)
Record kwargs : Type := {
  kw_length : option Z;
  kw_include_lowercase : option bool;
  kw_include_uppercase : option bool;
  kw_include_digits : option bool;
  kw_include_symbols : option bool;
  kw_exclude_ambiguous : option bool;
  kw_min_of_each_type : option bool
}.

(** [self.generate_password] applied to the unpacked [kwargs]. *)
Definition generate_password_kw (kw : kwargs) : M str :=
  generate_password
    (default 12%Z (kw_length kw))
    (default true (kw_include_lowercase kw))
    (default true (kw_include_uppercase kw))
    (default true (kw_include_digits kw))
    (default false (kw_include_symbols kw))
    (default false (kw_exclude_ambiguous kw))
    (default true (kw_min_of_each_type kw)).

Definition generate_multiple_passwords (count : Z) (kw : kwargs) : M (list str) :=
  collect (range count) (λ _, generate_password_kw kw).

(** The call with every argument left to its default. *)
Definition no_kwargs : kwargs :=
  {| kw_length := None; kw_include_lowercase := None;
     kw_include_uppercase := None; kw_include_digits := None;
     kw_include_symbols := None; kw_exclude_ambiguous := None;
     kw_min_of_each_type := None |}.

(** *** [check_password_strength] *)

(** The dictionary returned by [check_password_strength], one field per key. *)
Record report : Type := {
  r_length : nat;
  has_lowercase : bool;
  has_uppercase : bool;
  has_digits : bool;
  has_symbols : bool;
  character_types : nat;
  strength : string;
  strength_score : nat
}.

Definition strength_levels : list string :=
  ["Very Weak"; "Weak"; "Fair"; "Good"; "Strong"].

Section StrengthAnalyzer.

(** [str.islower], [str.isupper] and [str.isdigit] on one character consult
    the interpreter's Unicode tables; they are parameters of the analysis. *)
Variables islower isupper isdigit : ascii → bool.

Definition check_password_strength (password : str) : M report :=
  let has_lower := existsb islower password in
  let has_upper := existsb isupper password in
  let has_digit := existsb isdigit password in
  let has_symbol := existsb (contains symbols) password in
  let character_types :=
    sum_list (Nat.b2n <$> [has_lower; has_upper; has_digit; has_symbol]) in
  let strength_score := 0 in
  let strength_score :=
    if 8 <=? length password then strength_score + 1 else strength_score in
  let strength_score :=
    if 12 <=? length password then strength_score + 1 else strength_score in
  let strength_score :=
    if 3 <=? character_types then strength_score + 1 else strength_score in
  let strength_score :=
    if character_types =? 4 then strength_score + 1 else strength_score in
  let strength_score :=
    if 16 <=? length password then strength_score + 1 else strength_score in
  match strength_levels !! (strength_score `min` 4) with
  | Some strength =>
      mret {| r_length := length password;
              has_lowercase := has_lower;
              has_uppercase := has_upper;
              has_digits := has_digit;
              has_symbols := has_symbol;
              character_types := character_types;
              strength := strength;
              strength_score := strength_score |}
  | None => raise (IndexError "list index out of range")
  end.

End StrengthAnalyzer.

(** The three classifications on ASCII characters, where they are the ranges
    a-z, A-Z and 0-9. *)
Definition between (lo hi : nat) (c : ascii) : bool :=
  (lo <=? nat_of_ascii c) && (nat_of_ascii c <=? hi).
Definition ascii_islower : ascii → bool := between 97 122.
Definition ascii_isupper : ascii → bool := between 65 90.
Definition ascii_isdigit : ascii → bool := between 48 57.

(** ** Counting outcomes over the equally likely draws *)

(** What a call returned, without the random source. *)
Definition returned {A} (o : outcome A) : option A :=
  match o with Returned a _ => Some a | Raised _ => None end.

(** What a call raised. *)
Definition raised {A} (o : outcome A) : option exn :=
  match o with Returned _ _ => None | Raised e => Some e end.

(** All sequences of draws whose i-th entry is below the i-th bound: with an
    unbiased [randbelow] they are equally likely. *)
Fixpoint draw_sequences (bounds : list nat) : list (list nat) :=
  match bounds with
  | [] => [[]]
  | n :: bounds' => j ← seq 0 n; (j ::.) <$> draw_sequences bounds'
  end.

(** [k] draws, each below [n]. *)
Definition index_sequences (n k : nat) : list (list nat) :=
  draw_sequences (replicate k n).

(** In how many of the runs [runs] the password [pw] was returned. *)
Definition frequency (pw : str) (runs : list (outcome str)) : nat :=
  length (List.filter (λ o, match returned o with
                           | Some pw' => str_eqb pw pw'
                           | None => false
                           end) runs).

(** The shuffle of [buffer] under every sequence of swap partners. *)
Definition shuffle_runs (buffer : str) : list (outcome str) :=
  (λ js, shuffle buffer (rng_of_list js)) <$>
    index_sequences (length buffer) (length buffer).

(** [generate_password(4, True, True, True, True, False, True)] when the four
    mandatory draws select position 0 of each class (the buffer is "aA0!"
    before the shuffle), under every sequence of swap partners. *)
Definition generate_runs : list (outcome str) :=
  (λ js, generate_password 4 true true true true false true
           (rng_of_list ([0; 0; 0; 0] ++ js))) <$> index_sequences 4 4.

(** The shuffle the specification names, for comparison: Fisher-Yates draws
    the partner of position [i] among the positions from [i] on. *)
Definition spec_fisher_yates_step {A} (i : nat) (password_list : list A)
    : M (list A) :=
  j ← secrets.randbelow (length password_list - i);
  swap password_list i (i + j).

Definition spec_fisher_yates {A} (password_chars : list A) : M (list A) :=
  for_each (range (Z.of_nat (length password_chars))) spec_fisher_yates_step
           password_chars.

Definition spec_fisher_yates_runs (buffer : str) : list (outcome str) :=
  (λ js, spec_fisher_yates buffer (rng_of_list js)) <$>
    draw_sequences ((λ i, length buffer - i) <$> seq 0 (length buffer)).

(** ** [main] *)

(** The namespace [parser.parse_args()] returns: [--length] and [--count] are
    integers, the flags are booleans, [--analyze] is a string or [None]. *)
Record namespace : Type := {
  arg_length : Z;
  arg_count : Z;
  arg_no_lowercase : bool;
  arg_no_uppercase : bool;
  arg_no_digits : bool;
  arg_include_symbols : bool;
  arg_exclude_ambiguous : bool;
  arg_no_min_each : bool;
  arg_analyze : option (list ascii)
}.

(** The keyword arguments [main] passes to [generate_multiple_passwords]. *)
Definition main_kwargs (args : namespace) : kwargs :=
  {| kw_length := Some (arg_length args);
     kw_include_lowercase := Some (negb (arg_no_lowercase args));
     kw_include_uppercase := Some (negb (arg_no_uppercase args));
     kw_include_digits := Some (negb (arg_no_digits args));
     kw_include_symbols := Some (arg_include_symbols args);
     kw_exclude_ambiguous := Some (arg_exclude_ambiguous args);
     kw_min_of_each_type := Some (negb (arg_no_min_each args)) |}.

(** What [print] writes for a [str] and for a [bool]. *)
Definition to_string (s : str) : string := String.string_of_list_ascii s.
Definition py_bool (b : bool) : string := if b then "True" else "False".

(** The format [{i:2d}]: right-aligned in a field of at least [width]
    characters. *)
Fixpoint spaces (n : nat) : string :=
  match n with 0 => "" | S n' => String " " (spaces n') end.
Definition rjust (width : nat) (s : string) : string :=
  spaces (width - String.length s) +:+ s.

(** The line printed for the [i]-th password, [i] counted from 1. *)
Definition numbered_line (i : nat) (password : str) : string :=
  rjust 2 (decimal i) +:+ ": " +:+ to_string password.

(** How [main] ends: it returns [value] after printing the lines [stdout], or
    an exception leaves it. *)
Inductive finished : Type :=
  | Exit (stdout : list string) (value : option Z)
  | Uncaught (e : exn).

Section Main.

Variables islower isupper isdigit : ascii → bool.

(** The lines of the analysis mode. *)
Definition analysis_lines (analyze : str) (analysis : report) : list string :=
  [ "Password Analysis for: " +:+ to_string analyze;
    "Length: " +:+ decimal (r_length analysis);
    "Contains lowercase: " +:+ py_bool (has_lowercase analysis);
    "Contains uppercase: " +:+ py_bool (has_uppercase analysis);
    "Contains digits: " +:+ py_bool (has_digits analysis);
    "Contains symbols: " +:+ py_bool (has_symbols analysis);
    "Character types: " +:+ decimal (character_types analysis) +:+ "/4";
    "Strength: " +:+ strength analysis +:+ " ("
      +:+ decimal (strength_score analysis) +:+ "/5)" ].

(** The body of [main] after [parse_args].  [if args.analyze:] holds for a
    non-empty string only; [except ValueError] catches no other exception. *)
Definition main (args : namespace) (r : rng) : finished :=
  match arg_analyze args with
  | Some ((_ :: _) as analyze) =>
      match check_password_strength islower isupper isdigit analyze r with
      | Returned analysis _ => Exit (analysis_lines analyze analysis) None
      | Raised e => Uncaught e
      end
  | _ =>
      match generate_multiple_passwords (arg_count args) (main_kwargs args) r with
      | Returned passwords _ =>
          if (arg_count args =? 1)%Z then
            match passwords !! 0 with
            | Some password => Exit [to_string password] (Some 0%Z)
            | None => Uncaught (IndexError "list index out of range")
            end
          else
            Exit (imap (λ i password, numbered_line (S i) password) passwords)
                 (Some 0%Z)
      | Raised (ValueError msg) => Exit ["Error: " +:+ msg] (Some 1%Z)
      | Raised e => Uncaught e
      end
  end.

End Main.


(** ** Counting draws *)

(** [r'] is [r] after exactly [n] draws. *)
Definition after_draws (n : nat) (r r' : rng) : Prop :=
  tape r' = tape r ∧ cursor r' = cursor r + n.

(** The number of enabled classes. *)
Definition class_count (lo up di sy : bool) : nat :=
  Nat.b2n lo + Nat.b2n up + Nat.b2n di + Nat.b2n sy.

(** * Verification *)

(** ** The monad *)

Lemma bind_returned {A B} (m : M A) (k : A → M B) r a r1 :
  m r = Returned a r1 → (m ≫= k) r = k a r1.
Proof. intros H. unfold mbind, M_bind. by rewrite H. Qed.

Lemma bind_raised {A B} (m : M A) (k : A → M B) r e :
  m r = Raised e → (m ≫= k) r = Raised e.
Proof. intros H. unfold mbind, M_bind. by rewrite H. Qed.

(** Run the first action of a sequence, given what it returns. *)
Ltac run H := erewrite bind_returned by exact H.

(** ** [secrets] *)

Lemma randbelow_returns n r :
  n ≠ 0 → ∃ j, j < n ∧ secrets.randbelow n r = Returned j (advance r).
Proof.
  intros Hn. exists (tape r (cursor r) `mod` n). split.
  - by apply Nat.mod_upper_bound.
  - unfold secrets.randbelow. by destruct n.
Qed.

(** Every value below the bound is drawn for some tape. *)
Lemma randbelow_onto n j :
  j < n → secrets.randbelow n (rng_of_list [j]) = Returned j (advance (rng_of_list [j])).
Proof.
  intros Hj. unfold secrets.randbelow. destruct n; [lia|].
  simpl tape. simpl cursor. cbn [lookup list_lookup default from_option id].
  by rewrite Nat.mod_small.
Qed.

Lemma choice_returns (chars : str) r :
  chars ≠ [] → ∃ c, c ∈ chars ∧ secrets.choice chars r = Returned c (advance r).
Proof.
  intros Hne.
  destruct (randbelow_returns (length chars) r) as (j & Hj & Hdraw).
  { by destruct chars. }
  destruct (lookup_lt_is_Some_2 chars j Hj) as [c Hc].
  exists c. split; [by eapply list_elem_of_lookup_2|].
  unfold secrets.choice. destruct chars as [|c0 chars']; [done|].
  run Hdraw. by rewrite Hc.
Qed.

(** ** The loops *)

(** A loop that appends one drawn character per element, as the two
    [password_chars.append(secrets.choice(...))] loops do. *)
Lemma for_each_choice {X} (f : X → str) (xs : list X) (acc : str) r :
  Forall (λ x, f x ≠ []) xs →
  ∃ cs r',
    for_each xs (λ x, append_choice (f x)) acc r = Returned (acc ++ cs) r'
    ∧ Forall2 (λ x c, c ∈ f x) xs cs.
Proof.
  intros Hne. revert acc r.
  induction Hne as [|x xs Hx _ IH]; intros acc r.
  - exists [], r. by rewrite app_nil_r.
  - destruct (choice_returns (f x) r Hx) as (c & Hc & Hdraw).
    destruct (IH (acc ++ [c]) (advance r)) as (cs & r' & Hrun & Hall).
    exists (c :: cs), r'. split; [|by constructor].
    cbn [for_each]. erewrite bind_returned; last first.
    { unfold append_choice. by run Hdraw. }
    by rewrite Hrun, <- app_assoc.
Qed.

Lemma collect_choice {X} (xs : list X) (chars : str) r :
  chars ≠ [] →
  ∃ pw r',
    collect xs (λ _, secrets.choice chars) r = Returned pw r'
    ∧ length pw = length xs ∧ Forall (λ c, c ∈ chars) pw.
Proof.
  intros Hne. revert r. induction xs as [|x xs IH]; intros r.
  - by exists [], r.
  - destruct (choice_returns chars r Hne) as (c & Hc & Hdraw).
    destruct (IH (advance r)) as (pw & r' & Hrun & Hlen & Hall).
    exists (c :: pw), r'. split_and!.
    + cbn [collect]. run Hdraw. by run Hrun.
    + simpl. by rewrite Hlen.
    + by constructor.
Qed.

(** ** The shuffle *)

Lemma swap_returns {A} (l : list A) i j r :
  i < length l → j < length l →
  ∃ l', swap l i j r = Returned l' r ∧ l' ≡ₚ l.
Proof.
  intros Hi Hj.
  destruct (lookup_lt_is_Some_2 l i Hi) as [xi Hxi].
  destruct (lookup_lt_is_Some_2 l j Hj) as [xj Hxj].
  exists (<[j := xi]> (<[i := xj]> l)). split.
  - unfold swap. by rewrite Hxi, Hxj.
  - by apply Permutation_insert_swap.
Qed.

Lemma shuffle_loop_permutation {A} (positions : list nat) (l : list A) r :
  Forall (λ i, i < length l) positions →
  ∃ l' r', for_each positions shuffle_step l r = Returned l' r' ∧ l' ≡ₚ l.
Proof.
  revert l r. induction positions as [|i positions IH]; intros l r Hpos.
  - by exists l, r.
  - apply Forall_cons in Hpos as [Hi Hpos].
    destruct (randbelow_returns (length l) r) as (j & Hj & Hdraw); [lia|].
    destruct (swap_returns l i j (advance r) Hi Hj) as (l1 & Hswap & Hperm1).
    destruct (IH l1 (advance r)) as (l' & r' & Hrun & Hperm).
    { by rewrite (Permutation_length Hperm1). }
    exists l', r'. split; [|by rewrite Hperm].
    cbn [for_each]. erewrite bind_returned; [exact Hrun|].
    unfold shuffle_step. by run Hdraw.
Qed.

Lemma shuffle_permutation {A} (password_chars : list A) r :
  ∃ l' r', shuffle password_chars r = Returned l' r' ∧ l' ≡ₚ password_chars.
Proof.
  apply shuffle_loop_permutation. unfold range. rewrite Nat2Z.id.
  apply Forall_forall. intros i Hi%elem_of_seq. lia.
Qed.

(** ** The character set *)

Lemma contains_spec (s : str) c : contains s c = true ↔ c ∈ s.
Proof.
  unfold contains. rewrite existsb_exists. split.
  - intros (d & Hd & ->%Ascii.eqb_eq). by apply list_elem_of_In.
  - intros Hc. exists c. split; [by apply list_elem_of_In|apply Ascii.eqb_refl].
Qed.

Lemma drop_ambiguous_spec (chars : str) c :
  c ∈ drop_ambiguous chars ↔ c ∈ chars ∧ c ∉ ambiguous_chars.
Proof.
  unfold drop_ambiguous.
  rewrite list_elem_of_In, filter_In, <- list_elem_of_In.
  by rewrite negb_true_iff, <- not_true_iff_false, contains_spec.
Qed.

Lemma class_chars_subset exclude_ambiguous (table : str) c :
  c ∈ class_chars exclude_ambiguous table → c ∈ table.
Proof.
  destruct exclude_ambiguous; simpl; [|done].
  by intros [? _]%drop_ambiguous_spec.
Qed.

Lemma class_chars_unambiguous (table : str) c :
  c ∈ class_chars true table → c ∉ ambiguous_chars.
Proof. by intros [_ ?]%drop_ambiguous_spec. Qed.

(** [selected_types] is the list of enabled classes and [char_set] is their
    concatenation. *)
Lemma build_char_set_eq lo up di sy ex :
  build_char_set lo up di sy ex
  = (mjoin (enabled_classes lo up di sy ex), enabled_classes lo up di sy ex).
Proof. destruct lo, up, di, sy, ex; vm_compute; reflexivity. Qed.

Lemma elem_of_enabled_classes lo up di sy ex (ty : str) :
  ty ∈ enabled_classes lo up di sy ex ↔
    (lo = true ∧ ty = class_chars ex lowercase)
    ∨ (up = true ∧ ty = class_chars ex uppercase)
    ∨ (di = true ∧ ty = class_chars ex digits)
    ∨ (sy = true ∧ ty = class_chars ex symbols).
Proof.
  unfold enabled_classes. rewrite !elem_of_app.
  generalize (class_chars ex lowercase) (class_chars ex uppercase)
             (class_chars ex digits) (class_chars ex symbols).
  intros a b c d.
  destruct lo, up, di, sy;
    rewrite ?list_elem_of_singleton, ?elem_of_nil; intuition discriminate.
Qed.

Lemma enabled_classes_nonempty lo up di sy ex :
  Forall (λ ty : str, ty ≠ []) (enabled_classes lo up di sy ex).
Proof.
  apply Forall_forall. intros ty Hty%elem_of_enabled_classes.
  destruct Hty as [[_ ->]|[[_ ->]|[[_ ->]|[_ ->]]]]; destruct ex; vm_compute; discriminate.
Qed.

Lemma enabled_classes_length lo up di sy ex :
  length (enabled_classes lo up di sy ex)
  = Nat.b2n lo + Nat.b2n up + Nat.b2n di + Nat.b2n sy.
Proof. destruct lo, up, di, sy; reflexivity. Qed.

Lemma char_set_empty_iff lo up di sy ex :
  mjoin (enabled_classes lo up di sy ex) = [] ↔ lo || up || di || sy = false.
Proof. destruct lo, up, di, sy, ex; vm_compute; split; congruence. Qed.

Lemma elem_of_char_set lo up di sy ex c :
  c ∈ mjoin (enabled_classes lo up di sy ex) ↔
    (lo = true ∧ c ∈ class_chars ex lowercase)
    ∨ (up = true ∧ c ∈ class_chars ex uppercase)
    ∨ (di = true ∧ c ∈ class_chars ex digits)
    ∨ (sy = true ∧ c ∈ class_chars ex symbols).
Proof.
  rewrite list_elem_of_join.
  generalize (elem_of_enabled_classes lo up di sy ex).
  generalize (enabled_classes lo up di sy ex) (class_chars ex lowercase)
             (class_chars ex uppercase) (class_chars ex digits)
             (class_chars ex symbols).
  intros tys a b d e Hiff. split.
  - intros (ty & Hc & [[? ->]|[[? ->]|[[? ->]|[? ->]]]]%Hiff); tauto.
  - intros [[? ?]|[[? ?]|[[? ?]|[? ?]]]]; eexists; (split; [eassumption|]);
      apply Hiff; tauto.
Qed.

(** Validation is the length check and one enabled class: the third guard
    never fires, a call has at most four classes. *)
Lemma passes_validation_iff len lo up di sy ex mi :
  passes_validation len lo up di sy ex mi = true
  ↔ (4 ≤ len)%Z ∧ lo || up || di || sy = true.
Proof.
  unfold passes_validation. rewrite build_char_set_eq.
  rewrite !andb_true_iff, !negb_true_iff, Z.ltb_ge, bool_decide_eq_false.
  rewrite char_set_empty_iff, not_false_iff_true.
  rewrite !andb_false_iff, Z.ltb_ge, enabled_classes_length.
  split; [tauto|]. intros [Hlen Hflags]. split_and!; try done.
  right. destruct lo, up, di, sy; simpl; lia.
Qed.

(** ** What [generate_password] does, case by case *)

Lemma generate_password_short len lo up di sy ex mi r :
  (len < 4)%Z →
  generate_password len lo up di sy ex mi r = Raised InvalidLength.
Proof.
  intros Hlen%Z.ltb_lt. unfold generate_password. by rewrite Hlen.
Qed.

Lemma generate_password_no_class len ex mi r :
  (4 ≤ len)%Z →
  generate_password len false false false false ex mi r = Raised NoClassSelected.
Proof.
  intros Hlen%Z.ltb_ge. unfold generate_password. by rewrite Hlen.
Qed.

(** The branch taken with [min_of_each_type]: mandatory draws, fill,
    shuffle. *)
Lemma mandatory_branch (selected_types : list str) (char_set : str) (n : nat) r :
  Forall (λ ty : str, ty ≠ []) selected_types →
  char_set ≠ [] →
  ∃ mandatory fill pw r',
    (password_chars ← for_each selected_types
                         (λ char_type, append_choice char_type) [];
     password_chars ← for_each (seq 0 n) (λ _, append_choice char_set)
                         password_chars;
     shuffle password_chars) r = Returned pw r'
    ∧ Forall2 (λ (ty : str) c, c ∈ ty) selected_types mandatory
    ∧ length fill = n ∧ Forall (λ c, c ∈ char_set) fill
    ∧ pw ≡ₚ mandatory ++ fill.
Proof.
  intros Htypes Hset.
  destruct (for_each_choice (λ ty, ty) selected_types [] r Htypes)
    as (mandatory & r1 & Hrun1 & Hmandatory).
  simpl app in Hrun1.
  destruct (for_each_choice (λ _ : nat, char_set) (seq 0 n) mandatory r1)
    as (fill & r2 & Hrun2 & Hfill).
  { by apply Forall_forall. }
  destruct (shuffle_permutation (mandatory ++ fill) r2) as (pw & r' & Hrun3 & Hperm).
  exists mandatory, fill, pw, r'. split_and!; try done.
  - run Hrun1. by run Hrun2.
  - apply Forall2_length in Hfill. by rewrite length_seq in Hfill.
  - clear -Hfill. induction Hfill; by constructor.
Qed.

(** The mandatory draws: each is a character of the union, and each class is
    represented. *)
Lemma mandatory_draws (selected_types : list str) (mandatory : str) :
  Forall2 (λ (ty : str) c, c ∈ ty) selected_types mandatory →
  Forall (λ c, c ∈ mjoin selected_types) mandatory
  ∧ Forall (λ ty : str, ∃ c, c ∈ mandatory ∧ c ∈ ty) selected_types.
Proof.
  induction 1 as [|ty c tys cs Hc _ [IH1 IH2]]; [by split|]. split.
  - constructor.
    + apply list_elem_of_join. exists ty. split; [done|left].
    + eapply Forall_impl; [exact IH1|]. intros d (ty' & ? & ?)%list_elem_of_join.
      apply list_elem_of_join. exists ty'. split; [done|by right].
  - constructor.
    + exists c. split; [left|done].
    + eapply Forall_impl; [exact IH2|]. intros ty' (d & ? & ?).
      exists d. split; [by right|done].
Qed.

(** A call that passes validation returns, and what it returns. *)
Lemma generate_password_valid len lo up di sy ex mi r :
  passes_validation len lo up di sy ex mi = true →
  ∃ pw r',
    generate_password len lo up di sy ex mi r = Returned pw r'
    ∧ Z.of_nat (length pw) = len
    ∧ Forall (λ c, c ∈ mjoin (enabled_classes lo up di sy ex)) pw
    ∧ (mi = true →
       Forall (λ ty : str, ∃ c, c ∈ pw ∧ c ∈ ty) (enabled_classes lo up di sy ex)).
Proof.
  intros [Hlen Hflags]%passes_validation_iff.
  unfold generate_password. rewrite build_char_set_eq.
  set (tys := enabled_classes lo up di sy ex).
  assert (Htys : Forall (λ ty : str, ty ≠ []) tys) by apply enabled_classes_nonempty.
  assert (Hset : mjoin tys ≠ []).
  { intros ?%char_set_empty_iff. congruence. }
  assert (Hcount : 0 < length tys ≤ 4).
  { unfold tys. rewrite enabled_classes_length.
    destruct lo, up, di, sy; simpl in *; (done || lia). }
  rewrite (proj2 (Z.ltb_ge len 4) Hlen), (bool_decide_eq_false_2 _ Hset).
  destruct mi; cbn [andb].
  - rewrite (bool_decide_eq_true_2 _ (proj1 Hcount)).
    rewrite (proj2 (Z.ltb_ge len _)) by lia.
    destruct (mandatory_branch tys (mjoin tys) (Z.to_nat (len - Z.of_nat (length tys))) r)
      as (mandatory & fill & pw & r' & Hrun & Hmand & Hfilllen & Hfill & Hperm);
      [done..|].
    exists pw, r'. split_and!.
    + exact Hrun.
    + rewrite (Permutation_length Hperm), length_app, Hfilllen.
      rewrite <- (Forall2_length _ _ _ Hmand). lia.
    + rewrite Hperm. apply Forall_app. split; [|done].
      by apply mandatory_draws.
    + intros _. eapply Forall_impl; [exact (proj2 (mandatory_draws _ _ Hmand))|].
      intros ty (c & Hc & Hty). exists c. split; [|done].
      rewrite Hperm. apply elem_of_app. by left.
  - destruct (collect_choice (range len) (mjoin tys) r Hset)
      as (pw & r' & Hrun & Hpwlen & Hall).
    exists pw, r'. split_and!; try done.
    rewrite Hpwlen. unfold range. rewrite length_seq. lia.
Qed.

Lemma generate_password_cases len lo up di sy ex mi r :
  ((len < 4)%Z
   ∧ generate_password len lo up di sy ex mi r = Raised InvalidLength)
  ∨ ((4 ≤ len)%Z ∧ lo || up || di || sy = false
     ∧ generate_password len lo up di sy ex mi r = Raised NoClassSelected)
  ∨ (passes_validation len lo up di sy ex mi = true
     ∧ ∃ pw r', generate_password len lo up di sy ex mi r = Returned pw r').
Proof.
  destruct (Z.lt_ge_cases len 4) as [Hlen|Hlen].
  { left. split; [done|by apply generate_password_short]. }
  right. destruct (lo || up || di || sy) eqn:Hflags.
  - right. assert (Hvalid : passes_validation len lo up di sy ex mi = true)
      by by apply passes_validation_iff.
    split; [done|].
    destruct (generate_password_valid _ _ _ _ _ _ _ r Hvalid) as (pw & r' & ? & _).
    by exists pw, r'.
  - left. split_and!; try done.
    apply orb_false_elim in Hflags as [[[-> ->]%orb_false_elim ->]%orb_false_elim ->].
    by apply generate_password_no_class.
Qed.

(** Only the first two [raise] statements are reachable. *)
Lemma generate_password_raises len lo up di sy ex mi r e :
  generate_password len lo up di sy ex mi r = Raised e →
  e = InvalidLength ∨ e = NoClassSelected.
Proof.
  intros Hraised.
  destruct (generate_password_cases len lo up di sy ex mi r)
    as [[_ H]|[(_ & _ & H)|(_ & pw & r' & H)]]; rewrite H in Hraised.
  - left. congruence.
  - right. congruence.
  - discriminate.
Qed.

(** A call returns exactly when it passes validation. *)
Lemma generate_password_returns_iff len lo up di sy ex mi r :
  (∃ pw r', generate_password len lo up di sy ex mi r = Returned pw r')
  ↔ passes_validation len lo up di sy ex mi = true.
Proof.
  split.
  - intros (pw & r' & Hret).
    destruct (generate_password_cases len lo up di sy ex mi r)
      as [[_ H]|[(_ & _ & H)|(? & _)]]; [congruence..|done].
  - intros Hvalid.
    destruct (generate_password_valid _ _ _ _ _ _ _ r Hvalid) as (pw & r' & ? & _).
    by exists pw, r'.
Qed.

(** A call that returns has passed validation, so what it returned has the
    properties above. *)
Lemma generate_password_returned len lo up di sy ex mi r pw r' :
  generate_password len lo up di sy ex mi r = Returned pw r' →
  Z.of_nat (length pw) = len
  ∧ Forall (λ c, c ∈ mjoin (enabled_classes lo up di sy ex)) pw
  ∧ (mi = true →
     Forall (λ ty : str, ∃ c, c ∈ pw ∧ c ∈ ty) (enabled_classes lo up di sy ex)).
Proof.
  intros Hret.
  assert (Hvalid : passes_validation len lo up di sy ex mi = true).
  { apply (generate_password_returns_iff _ _ _ _ _ _ _ r). by exists pw, r'. }
  destruct (generate_password_valid _ _ _ _ _ _ _ r Hvalid)
    as (pw0 & r0 & Hrun & Hprops).
  rewrite Hret in Hrun. by injection Hrun as <- <-.
Qed.

(** ** Two runs, traced by hand on the source *)

(** Draws 3, 4, 5, 6 pick "d", "E", "5", "&"; draws 7..10 fill "hijk" from the
    union; the partners 1, 2, ..., 7, 0 move "d" to the end and then swap it
    with "E". *)
Example generate_password_trace :
  returned (generate_password 8 true true true true false true
              (rng_of_list [3; 4; 5; 6; 7; 8; 9; 10; 1; 2; 3; 4; 5; 6; 7; 0]))
  = Some (lit "d5&hijkE").
Proof. reflexivity. Qed.

Example generate_password_plain_trace :
  returned (generate_password 4 false true false false true false
              (rng_of_list [7; 8; 12; 13]))
  = Some (lit "HJNP").
Proof. reflexivity. Qed.

(** * Properties of the generator and of the analyzer *)

(** ** The shuffle is a permutation, but not a uniform one *)

(** C9.  The shuffle loop always returns, and what it returns is a permutation
    of its input buffer: the same multiset of characters, hence the same
    length, whatever swap partners the random source supplies. *)
Theorem shuffle_is_permutation {A} (password_chars : list A) (r : rng) :
  ∃ password_list r',
    shuffle password_chars r = Returned password_list r'
    ∧ password_list ≡ₚ password_chars
    ∧ length password_list = length password_chars.
Proof.
  destruct (shuffle_permutation password_chars r) as (l' & r' & Hrun & Hperm).
  exists l', r'. split_and!; [done..|by apply Permutation_length].
Qed.

(** At every position the partner may be any position of the list, also one
    that an earlier iteration has already visited. *)
Lemma shuffle_step_partner {A} (l : list A) (i j : nat) :
  i < length l → j < length l →
  ∃ xi xj, l !! i = Some xi ∧ l !! j = Some xj
    ∧ returned (shuffle_step i l (rng_of_list [j]))
      = Some (<[j := xi]> (<[i := xj]> l)).
Proof.
  intros Hi Hj.
  destruct (lookup_lt_is_Some_2 l i Hi) as [xi Hxi].
  destruct (lookup_lt_is_Some_2 l j Hj) as [xj Hxj].
  exists xi, xj. split_and!; [done..|].
  unfold shuffle_step. erewrite bind_returned by by apply randbelow_onto.
  unfold swap. by rewrite Hxi, Hxj.
Qed.

(** Already on three characters the 27 sequences of partners do not spread
    evenly over the 6 permutations. *)
Example shuffle_three_characters :
  (λ pw, frequency pw (shuffle_runs (lit "abc"))) <$> permutations (lit "abc")
  = [4; 5; 5; 5; 4; 4].
Proof. by vm_compute. Qed.

(** C1.  The shuffle of [generate_password] is not uniform.  For the call
    [generate_password(4, True, True, True, True, False, True)] whose mandatory
    draws give the buffer "aA0!", the 256 equally likely sequences of swap
    partners return "Aa!0" 15 times and "!aA0" 8 times, so no number is the
    frequency of every permutation of the buffer; the Fisher-Yates shuffle the
    specification names returns each of the 24 permutations exactly once over
    its 24 sequences of draws. *)
Theorem generate_password_shuffle_biased :
  length generate_runs = 256
  ∧ frequency (lit "Aa!0") generate_runs = 15
  ∧ frequency (lit "!aA0") generate_runs = 8
  ∧ ¬ (∃ k, ∀ pw, pw ≡ₚ lit "aA0!" → frequency pw generate_runs = k)
  ∧ Forall (λ pw, frequency pw (spec_fisher_yates_runs (lit "aA0!")) = 1)
           (permutations (lit "aA0!")).
Proof.
  assert (H15 : frequency (lit "Aa!0") generate_runs = 15) by by vm_compute.
  assert (H8 : frequency (lit "!aA0") generate_runs = 8) by by vm_compute.
  split_and!; [by vm_compute|done|done| |].
  - intros [k Hk].
    assert (k = 15) as ->.
    { rewrite <- H15. symmetry. apply Hk.
      change (lit "Aa!0") with (["A"; "a"; "!"; "0"]%char).
      change (lit "aA0!") with (["a"; "A"; "0"; "!"]%char).
      rewrite (Permutation_swap "A"%char "a"%char). do 2 f_equiv.
      apply Permutation_swap. }
    assert (15 = 8); [|done].
    rewrite <- H8. symmetry. apply Hk.
    exact (Permutation_app_comm ["!"%char] ["a"; "A"; "0"]%char).
  - assert (Hall : forallb (λ pw, frequency pw (spec_fisher_yates_runs
                                                  (lit "aA0!")) =? 1)
                           (permutations (lit "aA0!")) = true)
      by (vm_compute; reflexivity).
    rewrite forallb_forall in Hall.
    apply Forall_forall. intros pw Hpw%list_elem_of_In.
    by apply Nat.eqb_eq, Hall.
Qed.

(** ** Batch generation *)

(** C2, as stated, fails: [generate_multiple_passwords(0)] returns the empty
    list and raises nothing. *)
Lemma generate_multiple_passwords_zero_returns :
  (0 < 1)%Z
  ∧ generate_multiple_passwords 0 no_kwargs (rng_of_list [])
    = Returned [] (rng_of_list [])
  ∧ ∀ e, generate_multiple_passwords 0 no_kwargs (rng_of_list []) ≠ Raised e.
Proof. split_and!; [done|reflexivity|discriminate]. Qed.

(** C2, amended.  For every count below 1 and every keyword arguments, valid
    or not, [generate_multiple_passwords] returns the empty list: the
    comprehension runs over an empty range, [generate_password] is not called
    and no draw is taken. *)
Theorem generate_multiple_passwords_nonpositive (count : Z) (kw : kwargs) (r : rng) :
  (count < 1)%Z → generate_multiple_passwords count kw r = Returned [] r.
Proof.
  intros Hcount. unfold generate_multiple_passwords, range.
  replace (Z.to_nat count) with 0 by lia. reflexivity.
Qed.

Lemma generate_multiple_passwords_nonpositive_witness :
  (-3 < 1)%Z
  ∧ generate_multiple_passwords (-3)
    {| kw_length := Some 2%Z; kw_include_lowercase := Some false;
       kw_include_uppercase := Some false; kw_include_digits := Some false;
       kw_include_symbols := None; kw_exclude_ambiguous := None;
       kw_min_of_each_type := None |} (rng_of_list [7; 7])
  = Returned [] (rng_of_list [7; 7]).
Proof. split; [lia|apply generate_multiple_passwords_nonpositive; lia]. Defined.

(** ** The order of the checks *)

(** C3, as stated, fails: with length 2, lowercase and uppercase only and the
    guarantee on, the error is the one of the length check of line 59, which is
    not the message of line 100 for the two selected types. *)
Lemma length_two_raises_invalid_length :
  raised (generate_password 2 true true false false false true (rng_of_list []))
  = Some InvalidLength
  ∧ InvalidLength ≠ LengthTooShortForClasses 2.
Proof. split; [reflexivity|by vm_compute]. Qed.

(** C3, amended.  [generate_password] with length 2, and likewise with length
    1, only lowercase and uppercase enabled and the guarantee on, fails with
    the error of the first check, "Password length must be at least 4
    characters", and with no other. *)
Theorem short_length_raises_invalid_length (exclude_ambiguous : bool) (r : rng) :
  generate_password 2 true true false false exclude_ambiguous true r
  = Raised InvalidLength
  ∧ generate_password 1 true true false false exclude_ambiguous true r
    = Raised InvalidLength.
Proof. split; by apply generate_password_short. Qed.

(** ** The returned password *)

(** C4.  A call that passes validation returns a password of exactly [length]
    characters, for every random source, with the guarantee
    ([min_of_each_type], mandatory draws, fill and shuffle) and without it. *)
Theorem generate_password_length len lo up di sy ex mi (r : rng) :
  passes_validation len lo up di sy ex mi = true →
  ∃ pw r',
    generate_password len lo up di sy ex mi r = Returned pw r'
    ∧ Z.of_nat (length pw) = len.
Proof.
  intros Hvalid.
  destruct (generate_password_valid _ _ _ _ _ _ _ r Hvalid)
    as (pw & r' & Hrun & Hlen & _).
  by exists pw, r'.
Qed.

Lemma generate_password_length_witness :
  passes_validation 9 true false true true true true = true
  ∧ ∃ pw r',
    generate_password 9 true false true true true true
      (rng_of_list [3; 1; 4; 1; 5; 9; 2; 6; 5; 3; 5; 8; 9; 7; 9; 3; 2; 3])
    = Returned pw r'
    ∧ Z.of_nat (length pw) = 9%Z.
Proof.
  split; [by vm_compute|apply generate_password_length; by vm_compute].
Defined.

(** C5.  With [exclude_ambiguous] set, a call that passes validation returns
    a password none of whose characters is one of the ambiguous characters
    0 O 1 l I | ` ' and the double quote, for every random source. *)
Theorem generate_password_unambiguous len lo up di sy mi (r : rng) :
  passes_validation len lo up di sy true mi = true →
  ∃ pw r',
    generate_password len lo up di sy true mi r = Returned pw r'
    ∧ ∀ c, c ∈ pw → c ∉ ambiguous_chars.
Proof.
  intros Hvalid.
  destruct (generate_password_valid _ _ _ _ _ _ _ r Hvalid)
    as (pw & r' & Hrun & _ & Hall & _).
  exists pw, r'. split; [done|]. intros c Hc.
  rewrite Forall_forall in Hall. apply Hall in Hc.
  apply elem_of_char_set in Hc
    as [[_ Hc]|[[_ Hc]|[[_ Hc]|[_ Hc]]]]; by eapply class_chars_unambiguous.
Qed.

Lemma generate_password_unambiguous_witness :
  passes_validation 6 true true true false true false = true
  ∧ ∃ pw r',
    generate_password 6 true true true false true false
      (rng_of_list [11; 40; 48; 8; 14; 0]) = Returned pw r'
    ∧ ∀ c, c ∈ pw → c ∉ ambiguous_chars.
Proof.
  split; [by vm_compute|apply generate_password_unambiguous; by vm_compute].
Defined.

(** C6.  With [min_of_each_type] set, a call that passes validation returns a
    password that has, for each enabled class, a character of that class's
    (filtered) character set; the shuffle does not lose it. *)
Theorem generate_password_one_of_each len lo up di sy ex (r : rng) :
  passes_validation len lo up di sy ex true = true →
  ∃ pw r',
    generate_password len lo up di sy ex true r = Returned pw r'
    ∧ (lo = true → ∃ c, c ∈ pw ∧ c ∈ class_chars ex lowercase)
    ∧ (up = true → ∃ c, c ∈ pw ∧ c ∈ class_chars ex uppercase)
    ∧ (di = true → ∃ c, c ∈ pw ∧ c ∈ class_chars ex digits)
    ∧ (sy = true → ∃ c, c ∈ pw ∧ c ∈ class_chars ex symbols).
Proof.
  intros Hvalid.
  destruct (generate_password_valid _ _ _ _ _ _ _ r Hvalid)
    as (pw & r' & Hrun & _ & _ & Heach).
  specialize (Heach eq_refl). rewrite Forall_forall in Heach.
  exists pw, r'. split; [done|].
  split_and!; intros ->; apply Heach, elem_of_enabled_classes; auto.
Qed.

Lemma generate_password_one_of_each_witness :
  passes_validation 5 true true false true true true = true
  ∧ ∃ pw r',
    generate_password 5 true true false true true true
      (rng_of_list [2; 7; 1; 8; 2; 8; 1; 8; 2; 8]) = Returned pw r'
    ∧ (true = true → ∃ c, c ∈ pw ∧ c ∈ class_chars true lowercase)
    ∧ (true = true → ∃ c, c ∈ pw ∧ c ∈ class_chars true uppercase)
    ∧ (false = true → ∃ c, c ∈ pw ∧ c ∈ class_chars true digits)
    ∧ (true = true → ∃ c, c ∈ pw ∧ c ∈ class_chars true symbols).
Proof.
  split; [by vm_compute|apply generate_password_one_of_each; by vm_compute].
Defined.

(** C7.  A call that passes validation returns a password every character of
    which is in the assembled [char_set], that is, in the (filtered) character
    set of one of the enabled classes; with the guarantee and without it. *)
Theorem generate_password_alphabet len lo up di sy ex mi (r : rng) :
  passes_validation len lo up di sy ex mi = true →
  ∃ pw r',
    generate_password len lo up di sy ex mi r = Returned pw r'
    ∧ ∀ c, c ∈ pw →
        c ∈ (build_char_set lo up di sy ex).1
        ∧ ((lo = true ∧ c ∈ class_chars ex lowercase)
           ∨ (up = true ∧ c ∈ class_chars ex uppercase)
           ∨ (di = true ∧ c ∈ class_chars ex digits)
           ∨ (sy = true ∧ c ∈ class_chars ex symbols)).
Proof.
  intros Hvalid.
  destruct (generate_password_valid _ _ _ _ _ _ _ r Hvalid)
    as (pw & r' & Hrun & _ & Hall & _).
  exists pw, r'. split; [done|]. intros c Hc.
  rewrite Forall_forall in Hall. apply Hall in Hc.
  rewrite build_char_set_eq. split; [done|by apply elem_of_char_set].
Qed.

Lemma generate_password_alphabet_witness :
  passes_validation 4 false false true false false false = true
  ∧ ∃ pw r',
    generate_password 4 false false true false false false
      (rng_of_list [1; 6; 1; 8]) = Returned pw r'
    ∧ ∀ c, c ∈ pw →
        c ∈ (build_char_set false false true false false).1
        ∧ ((false = true ∧ c ∈ class_chars false lowercase)
           ∨ (false = true ∧ c ∈ class_chars false uppercase)
           ∨ (true = true ∧ c ∈ class_chars false digits)
           ∨ (false = true ∧ c ∈ class_chars false symbols)).
Proof.
  split; [by vm_compute|apply generate_password_alphabet; by vm_compute].
Defined.

(** ** The strength report *)

Section StrengthAnalyzerFacts.

Variables islower isupper isdigit : ascii → bool.

(** The index [min(strength_score, 4)] is a position of the five labels, so
    the label is always found. *)
Lemma check_password_strength_returns password (r : rng) :
  ∃ rep, check_password_strength islower isupper isdigit password r
         = Returned rep r.
Proof.
  unfold check_password_strength. cbv zeta.
  destruct (strength_levels !! _) as [label|] eqn:Hlabel; [by eexists|].
  apply lookup_ge_None_1 in Hlabel. simpl length in Hlabel. lia.
Qed.

End StrengthAnalyzerFacts.

(** C8.  On the empty string [check_password_strength] returns the report with
    the four flags false, no character type, score 0 and label "Very Weak";
    on every string it returns a report and raises nothing. *)
Theorem check_password_strength_empty_and_total
    (islower isupper isdigit : ascii → bool) (r : rng) :
  check_password_strength islower isupper isdigit [] r
  = Returned {| r_length := 0;
                has_lowercase := false; has_uppercase := false;
                has_digits := false; has_symbols := false;
                character_types := 0;
                strength := "Very Weak"; strength_score := 0 |} r
  ∧ ∀ password, ∃ rep,
      check_password_strength islower isupper isdigit password r = Returned rep r.
Proof.
  split; [reflexivity|].
  intros password. apply check_password_strength_returns.
Qed.

(** The example of the specification, on ASCII input. *)
Example check_password_strength_example (r : rng) :
  check_password_strength ascii_islower ascii_isupper ascii_isdigit
    (lit "Abcdef12!@") r
  = Returned {| r_length := 10;
                has_lowercase := true; has_uppercase := true;
                has_digits := true; has_symbols := true;
                character_types := 4;
                strength := "Good"; strength_score := 3 |} r.
Proof. reflexivity. Qed.

(** ** Filtering never empties a class *)

(** C10, as stated, fails in its last part: with all four class flags false
    and length 3 the error raised is the one of the length check, not "At
    least one character type must be included". *)
Lemma no_class_but_invalid_length :
  false || false || false || false = false
  ∧ raised (generate_password 3 false false false false false true
              (rng_of_list []))
    = Some InvalidLength
  ∧ InvalidLength ≠ NoClassSelected.
Proof. split_and!; [reflexivity..|discriminate]. Qed.

(** C10, amended.  Filtering the four tables removes only "l", only "O" and
    "I", only "0" and "1", only the bar, and leaves each non-empty.  So the
    assembled [char_set] is empty only when all four class flags are false,
    each selected type is non-empty, no call raises [IndexError], and the error "At least
    one character type must be included" is raised exactly when the length
    check is passed (length at least 4) and all four class flags are false. *)
Theorem filtering_never_empties_a_class :
  (drop_ambiguous lowercase = lit "abcdefghijkmnopqrstuvwxyz"
   ∧ drop_ambiguous uppercase = lit "ABCDEFGHJKLMNPQRSTUVWXYZ"
   ∧ drop_ambiguous digits = lit "23456789"
   ∧ drop_ambiguous symbols = lit "!@#$%^&*()_+-=[]{};:,.<>?")
  ∧ (∀ lo up di sy ex,
       ((build_char_set lo up di sy ex).1 = [] ↔ lo || up || di || sy = false)
       ∧ Forall (λ ty : str, ty ≠ []) (build_char_set lo up di sy ex).2)
  ∧ (∀ len lo up di sy ex mi r msg,
       generate_password len lo up di sy ex mi r ≠ Raised (IndexError msg))
  ∧ (∀ len lo up di sy ex mi r,
       generate_password len lo up di sy ex mi r = Raised NoClassSelected
       ↔ (4 ≤ len)%Z ∧ lo || up || di || sy = false).
Proof.
  split_and!.
  - by vm_compute.
  - by vm_compute.
  - by vm_compute.
  - by vm_compute.
  - intros lo up di sy ex. rewrite build_char_set_eq. split.
    + apply char_set_empty_iff.
    + apply enabled_classes_nonempty.
  - intros len lo up di sy ex mi r msg Hraised.
    by apply generate_password_raises in Hraised as [?|?].
  - intros len lo up di sy ex mi r.
    destruct (generate_password_cases len lo up di sy ex mi r)
      as [[Hlen H]|[(Hlen & Hflags & H)|([Hlen Hflags]%passes_validation_iff
                                          & pw & r' & H)]];
      rewrite H; split; try done.
    + intros [? _]. lia.
    + intros [_ ?]. congruence.
Qed.

(** * Further properties *)

(** ** How a call of [generate_password] ends *)

(** X1.  [generate_password] returns a password exactly when the length is at
    least 4 and one of the four classes is enabled, whatever the other
    arguments and the random source. *)
Theorem generate_password_returns_exactly_when len lo up di sy ex mi (r : rng) :
  (∃ pw, returned (generate_password len lo up di sy ex mi r) = Some pw)
  ↔ (4 ≤ len)%Z ∧ lo || up || di || sy = true.
Proof.
  rewrite <- (passes_validation_iff len lo up di sy ex mi).
  destruct (generate_password_cases len lo up di sy ex mi r)
    as [[Hlen H]|[(Hlen & Hflags & H)|(Hvalid & pw & r' & H)]]; rewrite H; simpl.
  - split; [by intros [? ?]|].
    intros [? _]%passes_validation_iff. exfalso. lia.
  - split; [by intros [? ?]|].
    intros [_ ?]%passes_validation_iff. exfalso. congruence.
  - split; [done|]. intros _. by exists pw.
Qed.

Lemma string_length_append (s t : string) :
  String.length (s +:+ t) = String.length s + String.length t.
Proof. induction s as [|c s IH]; simpl; [done|by rewrite IH]. Qed.

(** The message of line 100 is none of the two other messages, for any
    number of types. *)
Lemma length_too_short_message n :
  InvalidLength ≠ LengthTooShortForClasses n
  ∧ NoClassSelected ≠ LengthTooShortForClasses n.
Proof.
  split; [|discriminate].
  intros [= H%(f_equal String.length)].
  rewrite !string_length_append in H. simpl in H. lia.
Qed.

(** X2.  The check of lines 99-100 never fires: no call of
    [generate_password] raises "Password length must be at least n when
    ensuring minimum of each type", because a call that reaches the check has
    a length of at least 4 and at most four selected types.  The error
    "Password length must be at least 4 characters" is raised exactly for a
    length below 4. *)
Theorem generate_password_third_check_dead len lo up di sy ex mi (r : rng) :
  (∀ n, generate_password len lo up di sy ex mi r
        ≠ Raised (LengthTooShortForClasses n))
  ∧ (generate_password len lo up di sy ex mi r = Raised InvalidLength
     ↔ (len < 4)%Z).
Proof.
  destruct (generate_password_cases len lo up di sy ex mi r)
    as [[Hlen H]|[(Hlen & Hflags & H)|([Hlen _]%passes_validation_iff
                                        & pw & r' & H)]]; rewrite H.
  - split; [|done]. intros n Hmsg.
    destruct (length_too_short_message n) as [Hne _]. apply Hne. congruence.
  - split.
    + intros n Hmsg.
      destruct (length_too_short_message n) as [_ Hne]. apply Hne. congruence.
    + split; [discriminate|lia].
  - split; [done|]. split; [discriminate|lia].
Qed.

(** X3.  Whether a call fails, and with which error, depends on its arguments
    only: two random sources give the same error or both give a password. *)
Theorem generate_password_error_independent_of_draws
    len lo up di sy ex mi (r1 r2 : rng) :
  raised (generate_password len lo up di sy ex mi r1)
  = raised (generate_password len lo up di sy ex mi r2).
Proof.
  destruct (generate_password_cases len lo up di sy ex mi r1)
    as [[Hlen H]|[(Hlen & Hflags & H)|(Hvalid & pw & r' & H)]]; rewrite H; simpl.
  - by rewrite generate_password_short.
  - destruct (generate_password_cases len lo up di sy ex mi r2)
      as [[? H2]|[(_ & _ & H2)|([_ ?]%passes_validation_iff & _)]];
      [lia|by rewrite H2|congruence].
  - destruct (generate_password_valid _ _ _ _ _ _ _ r2 Hvalid)
      as (pw2 & r2' & H2 & _). by rewrite H2.
Qed.

(** ** How many draws a call takes *)

Lemma bind_inv {A B} (m : M A) (k : A → M B) r b r2 :
  (m ≫= k) r = Returned b r2 →
  ∃ a r1, m r = Returned a r1 ∧ k a r1 = Returned b r2.
Proof.
  unfold mbind, M_bind. destruct (m r) as [a r1|e]; [|done].
  intros H. by exists a, r1.
Qed.

Lemma after_draws_trans n m r r1 r2 :
  after_draws n r r1 → after_draws m r1 r2 → after_draws (n + m) r r2.
Proof. intros [Ht1 Hc1] [Ht2 Hc2]. split; [congruence|lia]. Qed.

Lemma randbelow_inv n r j r' :
  secrets.randbelow n r = Returned j r' → j < n ∧ r' = advance r.
Proof.
  destruct (decide (n = 0)) as [->|Hn]; [done|].
  destruct (randbelow_returns n r Hn) as (j' & Hj & ->). by intros [= <- <-].
Qed.

Lemma choice_inv (chars : str) r c r' :
  secrets.choice chars r = Returned c r' →
  r' = advance r ∧ chars !! (tape r (cursor r) `mod` length chars) = Some c.
Proof.
  unfold secrets.choice. destruct chars as [|c0 chars']; [done|].
  intros (j & r1 & Hdraw & Hget)%bind_inv.
  assert (j = tape r (cursor r) `mod` length (c0 :: chars') ∧ r1 = advance r)
    as [-> ->] by (by injection Hdraw as <- <-).
  destruct (_ !! _) as [c1|]; [|done]. by injection Hget as <- <-.
Qed.

Lemma for_each_draws {A S} (body : A → S → M S) xs s r s' r' :
  (∀ x s r s' r', body x s r = Returned s' r' → after_draws 1 r r') →
  for_each xs body s r = Returned s' r' →
  after_draws (length xs) r r'.
Proof.
  intros Hbody. revert s r. induction xs as [|x xs IH]; intros s r; simpl.
  - intros [= _ <-]. split; [done|lia].
  - intros (s1 & r1 & H1%Hbody & Hrest%IH)%bind_inv.
    by apply (after_draws_trans 1 _ _ r1).
Qed.

Lemma collect_draws {A B} (e : A → M B) n xs r bs r' :
  (∀ x r b r', e x r = Returned b r' → after_draws n r r') →
  collect xs e r = Returned bs r' →
  after_draws (length xs * n) r r' ∧ length bs = length xs.
Proof.
  intros He. revert r bs r'. induction xs as [|x xs IH]; intros r bs r'; simpl.
  - intros [= <- <-]. split; [split; [done|lia]|done].
  - intros (b & r1 & H1%He & (bs' & r2 & [Hrest Hlen]%IH & [= <- <-])%bind_inv)%bind_inv.
    split; [by apply (after_draws_trans n _ _ r1)|simpl; lia].
Qed.

Lemma append_choice_draws (chars : str) acc r acc' r' :
  append_choice chars acc r = Returned acc' r' →
  after_draws 1 r r' ∧ length acc' = S (length acc).
Proof.
  intros (c & r1 & [-> _]%choice_inv & [= <- <-])%bind_inv.
  split; [split; simpl; [done|lia]|]. rewrite length_app. simpl. lia.
Qed.

Lemma shuffle_draws {A} (l : list A) r l' r' :
  shuffle l r = Returned l' r' → after_draws (length l) r r'.
Proof.
  intros H%for_each_draws.
  - unfold range in H. by rewrite length_seq, Nat2Z.id in H.
  - clear. intros i l r l' r' (j & r1 & [_ ->]%randbelow_inv & Hswap)%bind_inv.
    unfold swap in Hswap. destruct (l !! j), (l !! i); try done.
    injection Hswap as _ <-. split; simpl; [done|lia].
Qed.

(** A loop of [append_choice] statements lengthens the buffer by one per
    iteration. *)
Lemma for_each_append_length {X} (f : X → str) xs acc r acc' r' :
  for_each xs (λ x, append_choice (f x)) acc r = Returned acc' r' →
  length acc' = length acc + length xs.
Proof.
  revert acc r. induction xs as [|x xs IH]; intros acc r; simpl.
  - intros [= <- _]. lia.
  - intros (acc1 & r1 & [_ Hlen]%append_choice_draws & Hrest%IH)%bind_inv. lia.
Qed.

Lemma generate_password_draws_inv len lo up di sy ex mi r pw r' :
  generate_password len lo up di sy ex mi r = Returned pw r' →
  after_draws ((if mi then 2 else 1) * length pw) r r'.
Proof.
  intros Hret.
  destruct (generate_password_returned _ _ _ _ _ _ _ _ _ _ Hret) as (Hlen & _).
  revert Hret. unfold generate_password. rewrite build_char_set_eq.
  set (tys := enabled_classes lo up di sy ex).
  destruct (len <? 4)%Z; [done|].
  destruct (bool_decide (mjoin tys = [])) eqn:Hset; [done|].
  apply bool_decide_eq_false in Hset.
  destruct (mi && bool_decide (0 < length tys)) eqn:Hbranch.
  - apply andb_true_iff in Hbranch as [-> _].
    destruct (len <? Z.of_nat (length tys))%Z eqn:Hfit; [done|].
    apply Z.ltb_ge in Hfit.
    intros (b1 & r1 & H1 & (b2 & r2 & H2 & H3)%bind_inv)%bind_inv.
    pose proof (for_each_append_length (λ ty, ty) _ _ _ _ _ H1) as Hb1.
    pose proof (for_each_append_length (λ _, mjoin tys) _ _ _ _ _ H2) as Hb2.
    apply for_each_draws in H1; [|intros; by eapply append_choice_draws].
    apply for_each_draws in H2; [|intros; by eapply append_choice_draws].
    apply shuffle_draws in H3.
    unfold range in *. rewrite length_seq in *. simpl in Hb1.
    pose proof (after_draws_trans _ _ _ _ _ (after_draws_trans _ _ _ _ _ H1 H2) H3)
      as Hall.
    replace (2 * length pw) with
      (length tys + Z.to_nat (len - Z.of_nat (length tys)) + length b2) by lia.
    exact Hall.
  - assert (mi = false) as ->.
    { destruct mi; [|done]. simpl in Hbranch.
      apply bool_decide_eq_false in Hbranch.
      destruct tys; [done|simpl in Hbranch; lia]. }
    intros [Hdraws Hpw]%(collect_draws _ 1).
    + replace (1 * length pw) with (length (range len) * 1) by lia. exact Hdraws.
    + intros _ r0 c r0' [-> _]%choice_inv. split; simpl; [done|lia].
Qed.

(** X4.  A call that passes validation takes exactly [length] draws from the
    random source without the guarantee, and exactly twice [length] with it
    (one per character, then one per position of the shuffle); the source
    itself is left as it was. *)
Theorem generate_password_draws len lo up di sy ex mi (r : rng) :
  passes_validation len lo up di sy ex mi = true →
  ∃ pw r',
    generate_password len lo up di sy ex mi r = Returned pw r'
    ∧ after_draws ((if mi then 2 else 1) * Z.to_nat len) r r'.
Proof.
  intros Hvalid.
  destruct (generate_password_valid _ _ _ _ _ _ _ r Hvalid)
    as (pw & r' & Hrun & Hlen & _).
  exists pw, r'. split; [done|].
  replace (Z.to_nat len) with (length pw) by lia.
  by eapply generate_password_draws_inv.
Qed.

Lemma generate_password_draws_witness :
  passes_validation 6 true true true false false true = true
  ∧ ∃ pw r',
      generate_password 6 true true true false false true
        (rng_of_list [5; 4; 3; 2; 1; 0; 5; 4; 3; 2; 1; 0]) = Returned pw r'
      ∧ after_draws (2 * Z.to_nat 6)
          (rng_of_list [5; 4; 3; 2; 1; 0; 5; 4; 3; 2; 1; 0]) r'.
Proof.
  split; [by vm_compute|].
  apply (generate_password_draws 6 true true true false false true).
  by vm_compute.
Defined.

(** ** Without the guarantee: the password is read off the draws *)

Lemma generate_password_plain_eq len lo up di sy ex r :
  passes_validation len lo up di sy ex false = true →
  generate_password len lo up di sy ex false r
  = collect (range len)
      (λ _, secrets.choice (build_char_set lo up di sy ex).1) r.
Proof.
  intros [Hlen Hflags]%passes_validation_iff.
  unfold generate_password. destruct (build_char_set lo up di sy ex)
    as [char_set selected_types] eqn:Hbuild.
  rewrite (proj2 (Z.ltb_ge len 4) Hlen). simpl.
  rewrite bool_decide_eq_false_2; [done|].
  rewrite build_char_set_eq in Hbuild. injection Hbuild as <- _.
  intros ?%char_set_empty_iff. congruence.
Qed.

Lemma collect_choice_lookup {X} (xs : list X) (chars : str) r pw r' :
  collect xs (λ _, secrets.choice chars) r = Returned pw r' →
  ∀ i, i < length xs →
    pw !! i = chars !! (tape r (cursor r + i) `mod` length chars).
Proof.
  revert r pw r'. induction xs as [|x xs IH]; intros r pw r'; simpl; [lia|].
  intros (c & r1 & [-> Hc]%choice_inv & (pw' & r2 & Hrest & [= <- _])%bind_inv)%bind_inv.
  intros [|i] Hi.
  - by rewrite Nat.add_0_r, Hc.
  - simpl. rewrite (IH _ _ _ Hrest i) by lia. simpl.
    by rewrite Nat.add_succ_r.
Qed.

Lemma plain_password_lookup len lo up di sy ex r pw r' :
  passes_validation len lo up di sy ex false = true →
  generate_password len lo up di sy ex false r = Returned pw r' →
  ∀ i, i < Z.to_nat len →
    pw !! i = (build_char_set lo up di sy ex).1
                !! (tape r (cursor r + i)
                    `mod` length (build_char_set lo up di sy ex).1).
Proof.
  intros Hvalid Hrun i Hi.
  rewrite generate_password_plain_eq in Hrun by done.
  apply (collect_choice_lookup _ _ _ _ _ Hrun).
  unfold range. by rewrite length_seq.
Qed.

(** X5.  Without [min_of_each_type], the i-th character of the password is
    the character of [char_set] at the position given by the i-th draw: the
    draws are used in order, one per character, and nothing is reordered. *)
Theorem generate_password_plain_characters len lo up di sy ex (r : rng) :
  passes_validation len lo up di sy ex false = true →
  ∃ pw r',
    generate_password len lo up di sy ex false r = Returned pw r'
    ∧ ∀ i, i < Z.to_nat len →
        pw !! i = (build_char_set lo up di sy ex).1
                    !! (tape r (cursor r + i)
                        `mod` length (build_char_set lo up di sy ex).1).
Proof.
  intros Hvalid.
  destruct (generate_password_valid _ _ _ _ _ _ _ r Hvalid)
    as (pw & r' & Hrun & _).
  exists pw, r'. split; [done|]. by apply (plain_password_lookup _ _ _ _ _ _ _ _ r').
Qed.

Lemma generate_password_plain_characters_witness :
  passes_validation 4 true false false false false false = true
  ∧ ∃ pw r',
      generate_password 4 true false false false false false
        (rng_of_list [15; 0; 18; 18]) = Returned pw r'
      ∧ ∀ i, i < Z.to_nat 4 →
          pw !! i = (build_char_set true false false false false).1
                      !! (tape (rng_of_list [15; 0; 18; 18])
                            (cursor (rng_of_list [15; 0; 18; 18]) + i)
                          `mod` length (build_char_set true false false
                                                       false false).1).
Proof.
  split; [by vm_compute|].
  apply generate_password_plain_characters. by vm_compute.
Defined.

(** Positions of the characters of [target] in [chars]. *)
Lemma positions_of (chars target : str) :
  Forall (λ c, c ∈ chars) target →
  ∃ js, Forall2 (λ j c, chars !! j = Some c) js target.
Proof.
  induction 1 as [|c target [j Hj]%list_elem_of_lookup_1 _ [js IH]].
  - by exists [].
  - exists (j :: js). by constructor.
Qed.

(** X6.  Without [min_of_each_type] every string of [length] characters over
    [char_set] is the password returned for some random source: the generator
    can produce each password of the requested length and alphabet. *)
Theorem generate_password_plain_onto len lo up di sy ex (target : str) :
  passes_validation len lo up di sy ex false = true →
  Z.of_nat (length target) = len →
  Forall (λ c, c ∈ (build_char_set lo up di sy ex).1) target →
  ∃ r, returned (generate_password len lo up di sy ex false r) = Some target.
Proof.
  intros Hvalid Hlen Hall.
  destruct (positions_of _ _ Hall) as [js Hjs].
  exists (rng_of_list js).
  destruct (generate_password_valid _ _ _ _ _ _ _ (rng_of_list js) Hvalid)
    as (pw & r' & Hrun & Hpwlen & _).
  pose proof (plain_password_lookup _ _ _ _ _ _ _ _ _ Hvalid Hrun) as Hchars.
  rewrite Hrun. simpl. f_equal. apply list_eq. intros i.
  destruct (decide (i < length target)) as [Hi|Hi].
  - rewrite Hchars by lia. simpl.
    destruct (lookup_lt_is_Some_2 target i Hi) as [c Hc].
    destruct (Forall2_lookup_r _ _ _ _ _ Hjs Hc) as (j & Hj & Hjc).
    rewrite Hj, Hc. simpl.
    rewrite Nat.mod_small; [done|]. by eapply lookup_lt_Some.
  - rewrite !lookup_ge_None_2; [done|lia..].
Qed.

Lemma generate_password_plain_onto_witness :
  passes_validation 5 true false true false false false = true
  ∧ Z.of_nat (length (lit "h3ll0")) = 5%Z
  ∧ Forall (λ c, c ∈ (build_char_set true false true false false).1)
           (lit "h3ll0")
  ∧ ∃ r, returned (generate_password 5 true false true false false false r)
         = Some (lit "h3ll0").
Proof.
  assert (Hall : Forall (λ c, c ∈ (build_char_set true false true false false).1)
                        (lit "h3ll0")).
  { apply Forall_forall. intros c Hc. apply contains_spec.
    revert c Hc. apply Forall_forall. by vm_compute; repeat constructor. }
  split_and!; [by vm_compute|done|done|].
  apply generate_password_plain_onto; [by vm_compute|done|done].
Defined.

(** ** Batches *)

(** The guards of [generate_password], for the arguments a batch passes. *)
Definition kwargs_pass_validation (kw : kwargs) : bool :=
  passes_validation
    (default 12%Z (kw_length kw))
    (default true (kw_include_lowercase kw))
    (default true (kw_include_uppercase kw))
    (default true (kw_include_digits kw))
    (default false (kw_include_symbols kw))
    (default false (kw_exclude_ambiguous kw))
    (default true (kw_min_of_each_type kw)).

(** The draws one call of the batch takes. *)
Definition kwargs_draws (kw : kwargs) : nat :=
  (if default true (kw_min_of_each_type kw) then 2 else 1)
  * Z.to_nat (default 12%Z (kw_length kw)).

Lemma collect_returns {A B} (e : A → M B) (P : B → Prop) xs r :
  (∀ x r, ∃ b r', e x r = Returned b r' ∧ P b) →
  ∃ bs r', collect xs e r = Returned bs r' ∧ Forall P bs.
Proof.
  intros He. revert r. induction xs as [|x xs IH]; intros r.
  - by exists [], r.
  - destruct (He x r) as (b & r1 & H1 & Hb).
    destruct (IH r1) as (bs & r' & Hrest & Hbs).
    exists (b :: bs), r'. split; [|by constructor].
    simpl. run H1. by run Hrest.
Qed.

Lemma batch_call_draws kw (i : nat) r pw r' :
  generate_password_kw kw r = Returned pw r' →
  after_draws (kwargs_draws kw) r r'.
Proof.
  intros Hcall.
  pose proof (generate_password_returned _ _ _ _ _ _ _ _ _ _ Hcall) as [Hlen _].
  apply generate_password_draws_inv in Hcall.
  unfold kwargs_draws. by rewrite <- Hlen, Nat2Z.id.
Qed.

Lemma batch_returns count kw r :
  kwargs_pass_validation kw = true →
  ∃ passwords r',
    generate_multiple_passwords count kw r = Returned passwords r'
    ∧ length passwords = Z.to_nat count
    ∧ Forall (λ pw : str,
                Z.of_nat (length pw) = default 12%Z (kw_length kw)
                ∧ ∃ r0, returned (generate_password_kw kw r0) = Some pw)
             passwords
    ∧ after_draws (Z.to_nat count * kwargs_draws kw) r r'.
Proof.
  intros Hvalid. unfold generate_multiple_passwords.
  destruct (collect_returns (λ _ : nat, generate_password_kw kw)
              (λ pw : str,
                 Z.of_nat (length pw) = default 12%Z (kw_length kw)
                 ∧ ∃ r0, returned (generate_password_kw kw r0) = Some pw)
              (range count) r) as (pws & r' & Hrun & Hall).
  { intros _ r0.
    destruct (generate_password_valid _ _ _ _ _ _ _ r0 Hvalid)
      as (pw & r1 & H1 & Hlen & _).
    exists pw, r1. split_and!; [done..|].
    exists r0. unfold generate_password_kw. by rewrite H1. }
  exists pws, r'. split; [done|].
  destruct (collect_draws _ (kwargs_draws kw) _ _ _ _
              (batch_call_draws kw) Hrun) as [Hdraws Hlen].
  unfold range in *. rewrite length_seq in *. by split_and!.
Qed.

(** X7.  When the arguments pass validation, [generate_multiple_passwords]
    returns exactly [count] passwords (none for a count below 1); each has the
    requested length and is a password that a single call of
    [generate_password] with these arguments returns; the batch takes [count]
    times the draws of one call. *)
Theorem generate_multiple_passwords_valid (count : Z) (kw : kwargs) (r : rng) :
  kwargs_pass_validation kw = true →
  ∃ passwords r',
    generate_multiple_passwords count kw r = Returned passwords r'
    ∧ length passwords = Z.to_nat count
    ∧ Forall (λ pw : str,
                Z.of_nat (length pw) = default 12%Z (kw_length kw)
                ∧ ∃ r0, returned (generate_password_kw kw r0) = Some pw)
             passwords
    ∧ after_draws (Z.to_nat count * kwargs_draws kw) r r'.
Proof. apply batch_returns. Qed.

Lemma generate_multiple_passwords_valid_witness :
  kwargs_pass_validation no_kwargs = true
  ∧ ∃ passwords r',
      generate_multiple_passwords 5 no_kwargs (rng_of_list [1; 2; 3]) = Returned passwords r'
      ∧ length passwords = Z.to_nat 5
      ∧ Forall (λ pw : str,
                  Z.of_nat (length pw) = default 12%Z (kw_length no_kwargs)
                  ∧ ∃ r0, returned (generate_password_kw no_kwargs r0) = Some pw)
               passwords
      ∧ after_draws (Z.to_nat 5 * kwargs_draws no_kwargs) (rng_of_list [1; 2; 3]) r'.
Proof.
  split; [by vm_compute|].
  apply generate_multiple_passwords_valid. by vm_compute.
Defined.

(** X8.  For a count of at least 1 the batch fails exactly when a single call
    fails, and with the same error: the first call raises it and no partial
    list is returned. *)
Theorem generate_multiple_passwords_error (count : Z) (kw : kwargs) (r : rng) :
  (1 ≤ count)%Z →
  raised (generate_multiple_passwords count kw r)
  = raised (generate_password_kw kw r).
Proof.
  intros Hcount.
  destruct (generate_password_kw kw r) as [pw r1|e] eqn:Hcall; simpl.
  - assert (Hvalid : kwargs_pass_validation kw = true).
    { apply (generate_password_returns_iff _ _ _ _ _ _ _ r). by exists pw, r1. }
    destruct (batch_returns count kw r Hvalid) as (pws & r' & Hrun & _).
    by rewrite Hrun.
  - unfold generate_multiple_passwords, range.
    destruct (Z.to_nat count) as [|n] eqn:Hn; [lia|].
    simpl. by erewrite bind_raised by exact Hcall.
Qed.

Lemma generate_multiple_passwords_error_witness :
  (1 ≤ 3)%Z
  ∧ raised (generate_multiple_passwords 3
              {| kw_length := Some 2%Z; kw_include_lowercase := None;
                 kw_include_uppercase := None; kw_include_digits := None;
                 kw_include_symbols := None; kw_exclude_ambiguous := None;
                 kw_min_of_each_type := None |} (rng_of_list []))
    = raised (generate_password_kw
                {| kw_length := Some 2%Z; kw_include_lowercase := None;
                   kw_include_uppercase := None; kw_include_digits := None;
                   kw_include_symbols := None; kw_exclude_ambiguous := None;
                   kw_min_of_each_type := None |} (rng_of_list [])).
Proof.
  split; [lia|]. apply generate_multiple_passwords_error. lia.
Defined.

(** ** The strength report *)

(** The score as a function of the length and of the number of character
    types: one point per threshold reached. *)
Definition strength_score_of (n t : nat) : nat :=
  Nat.b2n (8 <=? n) + Nat.b2n (12 <=? n) + Nat.b2n (3 <=? t)
  + Nat.b2n (t =? 4) + Nat.b2n (16 <=? n).

Lemma strength_score_of_mono n n' t t' :
  n ≤ n' → t ≤ t' → t' ≤ 4 → strength_score_of n t ≤ strength_score_of n' t'.
Proof.
  intros Hn Ht Ht'. unfold strength_score_of.
  destruct (Nat.leb_spec 8 n), (Nat.leb_spec 8 n'), (Nat.leb_spec 12 n),
    (Nat.leb_spec 12 n'), (Nat.leb_spec 16 n), (Nat.leb_spec 16 n'),
    (Nat.leb_spec 3 t), (Nat.leb_spec 3 t'), (Nat.eqb_spec t 4),
    (Nat.eqb_spec t' 4); simpl; lia.
Qed.

Lemma existsb_Permutation {A} (f : A → bool) (l l' : list A) :
  l ≡ₚ l' → existsb f l = existsb f l'.
Proof.
  induction 1 as [|x l l' _ IH|x y l|l l' l'' _ IH1 _ IH2]; simpl.
  - done.
  - by rewrite IH.
  - by destruct (f x), (f y).
  - by rewrite IH1.
Qed.

Section StrengthReport.

Variables islower isupper isdigit : ascii → bool.

(** The fields of the report, read off the source. *)
Lemma check_password_strength_fields password r rep r' :
  check_password_strength islower isupper isdigit password r = Returned rep r' →
  r' = r
  ∧ r_length rep = length password
  ∧ has_lowercase rep = existsb islower password
  ∧ has_uppercase rep = existsb isupper password
  ∧ has_digits rep = existsb isdigit password
  ∧ has_symbols rep = existsb (contains symbols) password
  ∧ character_types rep
    = Nat.b2n (has_lowercase rep) + Nat.b2n (has_uppercase rep)
      + Nat.b2n (has_digits rep) + Nat.b2n (has_symbols rep)
  ∧ strength_score rep
    = strength_score_of (length password) (character_types rep)
  ∧ strength_levels !! (strength_score rep `min` 4) = Some (strength rep).
Proof.
  unfold check_password_strength. cbv zeta.
  remember (length password) as n eqn:Hn.
  match goal with
  | |- context [sum_list ?l] => remember (sum_list l) as t eqn:Ht
  end.
  assert (Hsum : t = Nat.b2n (existsb islower password)
                     + Nat.b2n (existsb isupper password)
                     + Nat.b2n (existsb isdigit password)
                     + Nat.b2n (existsb (contains symbols) password)).
  { rewrite Ht. simpl. lia. }
  clear Ht.
  destruct (8 <=? n) eqn:H8, (12 <=? n) eqn:H12, (3 <=? t) eqn:H3,
    (t =? 4) eqn:H4, (16 <=? n) eqn:H16;
    simpl; intros [= <- <-];
    cbv beta iota delta [r_length has_lowercase has_uppercase has_digits
      has_symbols character_types strength strength_score];
    unfold strength_score_of; rewrite H8, H12, H3, H4, H16;
    by split_and!.
Qed.

Lemma report_bounds password r rep r' :
  check_password_strength islower isupper isdigit password r = Returned rep r' →
  character_types rep ≤ 4 ∧ strength_score rep ≤ 5.
Proof.
  intros (_ & _ & _ & _ & _ & _ & Htypes & Hscore & _)%check_password_strength_fields.
  assert (character_types rep ≤ 4).
  { rewrite Htypes. destruct (has_lowercase rep), (has_uppercase rep),
      (has_digits rep), (has_symbols rep); simpl; lia. }
  split; [done|]. rewrite Hscore. unfold strength_score_of.
  destruct (8 <=? _), (12 <=? _), (16 <=? _), (Nat.leb_spec 3 (character_types rep)),
    (Nat.eqb_spec (character_types rep) 4); simpl; lia.
Qed.

End StrengthReport.

(** X9.  The report counts at most 4 character types and scores at most 5.
    Its label is "Strong" exactly for a password of at least 16 characters
    with at least 3 character types or of at least 12 characters with all 4
    types, and "Very Weak" exactly for a password of fewer than 8 characters
    with fewer than 3 types. *)
Theorem strength_label_thresholds
    (islower isupper isdigit : ascii → bool) (password : str) (r : rng) :
  ∃ rep,
    check_password_strength islower isupper isdigit password r = Returned rep r
    ∧ character_types rep ≤ 4 ∧ strength_score rep ≤ 5
    ∧ (strength rep = "Strong"
       ↔ (16 ≤ length password ∧ 3 ≤ character_types rep)
         ∨ (12 ≤ length password ∧ character_types rep = 4))
    ∧ (strength rep = "Very Weak"
       ↔ length password < 8 ∧ character_types rep < 3).
Proof.
  destruct (check_password_strength_returns islower isupper isdigit password r)
    as [rep Hrun].
  exists rep. split; [done|].
  destruct (report_bounds _ _ _ _ _ _ _ Hrun) as [Htypes Hscore].
  split_and!; [done..| |];
    apply check_password_strength_fields in Hrun
      as (_ & _ & _ & _ & _ & _ & _ & Heq & Hlabel);
    rewrite Heq in Hlabel; unfold strength_score_of in Hlabel;
    destruct (Nat.leb_spec 8 (length password)),
      (Nat.leb_spec 12 (length password)), (Nat.leb_spec 16 (length password)),
      (Nat.leb_spec 3 (character_types rep)),
      (Nat.eqb_spec (character_types rep) 4);
    simpl in Hlabel; injection Hlabel as <-;
    (split; [try discriminate; try lia; intros _|intros ?; try done; lia]);
    lia.
Qed.

(** X10.  Appending characters to a password never lowers its report: every
    flag that was set stays set, and the number of character types and the
    score do not decrease. *)
Theorem strength_monotone_under_append
    (islower isupper isdigit : ascii → bool) (password suffix : str) (r : rng) :
  ∃ rep rep',
    check_password_strength islower isupper isdigit password r = Returned rep r
    ∧ check_password_strength islower isupper isdigit (password ++ suffix) r
      = Returned rep' r
    ∧ (has_lowercase rep = true → has_lowercase rep' = true)
    ∧ (has_uppercase rep = true → has_uppercase rep' = true)
    ∧ (has_digits rep = true → has_digits rep' = true)
    ∧ (has_symbols rep = true → has_symbols rep' = true)
    ∧ character_types rep ≤ character_types rep'
    ∧ strength_score rep ≤ strength_score rep'.
Proof.
  destruct (check_password_strength_returns islower isupper isdigit password r)
    as [rep Hrun].
  destruct (check_password_strength_returns islower isupper isdigit
              (password ++ suffix) r) as [rep' Hrun'].
  exists rep, rep'. split; [done|]. split; [done|].
  destruct (report_bounds _ _ _ _ _ _ _ Hrun') as [Hbound _].
  apply check_password_strength_fields in Hrun
    as (_ & _ & Hl & Hu & Hd & Hs & Ht & Hscore & _).
  apply check_password_strength_fields in Hrun'
    as (_ & _ & Hl' & Hu' & Hd' & Hs' & Ht' & Hscore' & _).
  rewrite existsb_app in Hl', Hu', Hd', Hs'.
  rewrite <- Hl in Hl'. rewrite <- Hu in Hu'.
  rewrite <- Hd in Hd'. rewrite <- Hs in Hs'.
  assert (Htypes : character_types rep ≤ character_types rep').
  { rewrite Ht, Ht', Hl', Hu', Hd', Hs'.
    destruct (has_lowercase rep), (has_uppercase rep), (has_digits rep),
      (has_symbols rep); simpl; lia. }
  split_and!.
  - intros Hset. by rewrite Hl', Hset.
  - intros Hset. by rewrite Hu', Hset.
  - intros Hset. by rewrite Hd', Hset.
  - intros Hset. by rewrite Hs', Hset.
  - done.
  - rewrite Hscore, Hscore'. apply strength_score_of_mono; [|done..].
    rewrite length_app. lia.
Qed.

(** X11.  The report depends on the characters of the password only, not on
    their order: two permutations of the same characters get the same
    report. *)
Theorem strength_invariant_under_permutation
    (islower isupper isdigit : ascii → bool) (password password' : str) (r : rng) :
  password ≡ₚ password' →
  check_password_strength islower isupper isdigit password r
  = check_password_strength islower isupper isdigit password' r.
Proof.
  intros Hperm. unfold check_password_strength.
  rewrite !(existsb_Permutation _ _ _ Hperm).
  by rewrite (Permutation_length Hperm).
Qed.

Lemma strength_invariant_under_permutation_witness :
  lit "aB3" ≡ₚ lit "3aB"
  ∧ check_password_strength ascii_islower ascii_isupper ascii_isdigit
      (lit "aB3") (rng_of_list [])
    = check_password_strength ascii_islower ascii_isupper ascii_isdigit
        (lit "3aB") (rng_of_list []).
Proof.
  assert (Hperm : lit "aB3" ≡ₚ lit "3aB").
  { exact (Permutation_app_comm ["a"; "B"]%char ["3"%char]). }
  split; [done|]. by apply strength_invariant_under_permutation.
Defined.

(** ** Analysing a generated password *)

(** The classification [f] has the value [b] on every character of [table]. *)
Definition constant_on (f : ascii → bool) (b : bool) (table : str) : Prop :=
  ∀ c, c ∈ table → f c = b.

Lemma constant_on_decide f b (table : str) :
  forallb (λ c, eqb (f c) b) table = true → constant_on f b table.
Proof.
  intros Hall c Hc%list_elem_of_In. rewrite forallb_forall in Hall.
  by apply eqb_prop, Hall.
Qed.

(** A flag of the report is set only if a character of an enabled class
    satisfies the classification. *)
Lemma reported_from_enabled (f : ascii → bool) lo up di sy ex (pw : str) :
  Forall (λ c, c ∈ mjoin (enabled_classes lo up di sy ex)) pw →
  existsb f pw = true →
  ∃ c, f c = true
       ∧ ((lo = true ∧ c ∈ lowercase) ∨ (up = true ∧ c ∈ uppercase)
          ∨ (di = true ∧ c ∈ digits) ∨ (sy = true ∧ c ∈ symbols)).
Proof.
  intros Hall (c & Hc%list_elem_of_In & Hf)%existsb_exists.
  exists c. split; [done|].
  rewrite Forall_forall in Hall. apply Hall, elem_of_char_set in Hc.
  destruct Hc as [[? Hc]|[[? Hc]|[[? Hc]|[? Hc]]]];
    apply class_chars_subset in Hc; tauto.
Qed.

(** With the guarantee, a classification that holds on a whole enabled class
    sets the flag. *)
Lemma enabled_is_reported (f : ascii → bool) (table : str) ex (pw : str)
    (types : list (list ascii)) :
  Forall (λ ty : str, ∃ c, c ∈ pw ∧ c ∈ ty) types →
  class_chars ex table ∈ types →
  constant_on f true table →
  existsb f pw = true.
Proof.
  intros Heach Hin Htable. rewrite Forall_forall in Heach.
  destruct (Heach _ Hin) as (c & Hpw & Hc%class_chars_subset).
  apply existsb_exists. exists c. split; [by apply list_elem_of_In|by apply Htable].
Qed.

Ltac table_fact := apply constant_on_decide; vm_compute; reflexivity.

(** A character of a class on which the classification is false cannot have
    set the flag. *)
Ltac wrong_class Hf Hc :=
  exfalso;
  refine (eq_true_false_abs _ Hf (constant_on_decide _ false _ _ _ Hc));
  vm_compute; reflexivity.

(** What the analyzer reports for a password the generator returned. *)
Lemma analyze_generated len lo up di sy ex mi r pw r' r0 rep r0' :
  generate_password len lo up di sy ex mi r = Returned pw r' →
  check_password_strength ascii_islower ascii_isupper ascii_isdigit pw r0
  = Returned rep r0' →
  r_length rep = Z.to_nat len
  ∧ (has_lowercase rep = true → lo = true)
  ∧ (has_uppercase rep = true → up = true)
  ∧ (has_digits rep = true → di = true)
  ∧ (has_symbols rep = true → sy = true)
  ∧ (mi = true →
     has_lowercase rep = lo ∧ has_uppercase rep = up
     ∧ has_digits rep = di ∧ has_symbols rep = sy).
Proof.
  intros (Hlen & Hall & Heach)%generate_password_returned
         (_ & Hrl & Hl & Hu & Hd & Hs & _)%check_password_strength_fields.
  assert (Hlo : has_lowercase rep = true → lo = true).
  { rewrite Hl. intros (c & Hf & Hc)%(reported_from_enabled _ _ _ _ _ _ _ Hall).
    destruct Hc as [[? _]|[[_ Hc]|[[_ Hc]|[_ Hc]]]]; [done|wrong_class Hf Hc..]. }
  assert (Hup : has_uppercase rep = true → up = true).
  { rewrite Hu. intros (c & Hf & Hc)%(reported_from_enabled _ _ _ _ _ _ _ Hall).
    destruct Hc as [[_ Hc]|[[? _]|[[_ Hc]|[_ Hc]]]];
      [wrong_class Hf Hc|done|wrong_class Hf Hc..]. }
  assert (Hdi : has_digits rep = true → di = true).
  { rewrite Hd. intros (c & Hf & Hc)%(reported_from_enabled _ _ _ _ _ _ _ Hall).
    destruct Hc as [[_ Hc]|[[_ Hc]|[[? _]|[_ Hc]]]];
      [wrong_class Hf Hc..|done|wrong_class Hf Hc]. }
  assert (Hsy : has_symbols rep = true → sy = true).
  { rewrite Hs. intros (c & Hf & Hc)%(reported_from_enabled _ _ _ _ _ _ _ Hall).
    destruct Hc as [[_ Hc]|[[_ Hc]|[[_ Hc]|[? _]]]]; [wrong_class Hf Hc..|done]. }
  split_and!; try done.
  - rewrite Hrl. lia.
  - intros Hmi. specialize (Heach Hmi).
    split_and!; apply eq_true_iff_eq; (split; [done|]); intros ->.
    + rewrite Hl. eapply (enabled_is_reported _ lowercase); [exact Heach| |table_fact].
      apply elem_of_enabled_classes. tauto.
    + rewrite Hu. eapply (enabled_is_reported _ uppercase); [exact Heach| |table_fact].
      apply elem_of_enabled_classes. tauto.
    + rewrite Hd. eapply (enabled_is_reported _ digits); [exact Heach| |table_fact].
      apply elem_of_enabled_classes. tauto.
    + rewrite Hs. eapply (enabled_is_reported _ symbols); [exact Heach| |table_fact].
      apply elem_of_enabled_classes. tauto.
Qed.

(** X12.  Generating with [min_of_each_type] and then analysing gives back the
    configuration: the report of the returned password has the requested
    length, its four flags are exactly the four class flags of the call, and
    its number of character types is the number of enabled classes. *)
Theorem analysis_of_guaranteed_password len lo up di sy ex (r : rng) :
  passes_validation len lo up di sy ex true = true →
  ∃ pw r' rep,
    generate_password len lo up di sy ex true r = Returned pw r'
    ∧ check_password_strength ascii_islower ascii_isupper ascii_isdigit pw r'
      = Returned rep r'
    ∧ Z.of_nat (r_length rep) = len
    ∧ has_lowercase rep = lo ∧ has_uppercase rep = up
    ∧ has_digits rep = di ∧ has_symbols rep = sy
    ∧ character_types rep = class_count lo up di sy.
Proof.
  intros Hvalid. pose proof Hvalid as [Hlen _]%passes_validation_iff.
  destruct (generate_password_valid _ _ _ _ _ _ _ r Hvalid) as (pw & r' & Hrun & _).
  destruct (check_password_strength_returns ascii_islower ascii_isupper
              ascii_isdigit pw r') as [rep Hrep].
  exists pw, r', rep. split; [done|]. split; [done|].
  destruct (analyze_generated _ _ _ _ _ _ _ _ _ _ _ _ _ Hrun Hrep)
    as (Hrl & _ & _ & _ & _ & Hflags).
  destruct (Hflags eq_refl) as (Hl & Hu & Hd & Hs).
  apply check_password_strength_fields in Hrep as (_ & _ & _ & _ & _ & _ & Ht & _).
  split_and!; try done; [lia|].
  by rewrite Ht, Hl, Hu, Hd, Hs.
Qed.

Lemma analysis_of_guaranteed_password_witness :
  passes_validation 10 true false true true true true = true
  ∧ ∃ pw r' rep,
      generate_password 10 true false true true true true
        (rng_of_list [4; 8; 15; 16; 23; 42]) = Returned pw r'
      ∧ check_password_strength ascii_islower ascii_isupper ascii_isdigit pw r'
        = Returned rep r'
      ∧ Z.of_nat (r_length rep) = 10%Z
      ∧ has_lowercase rep = true ∧ has_uppercase rep = false
      ∧ has_digits rep = true ∧ has_symbols rep = true
      ∧ character_types rep = class_count true false true true.
Proof.
  split; [by vm_compute|].
  apply analysis_of_guaranteed_password. by vm_compute.
Defined.

(** X13.  Whatever the mode, the report of a returned password never shows a
    class that the call did not enable, so it counts at most as many character
    types as classes were enabled. *)
Theorem analysis_shows_only_enabled_classes len lo up di sy ex mi (r : rng) :
  passes_validation len lo up di sy ex mi = true →
  ∃ pw r' rep,
    generate_password len lo up di sy ex mi r = Returned pw r'
    ∧ check_password_strength ascii_islower ascii_isupper ascii_isdigit pw r'
      = Returned rep r'
    ∧ (has_lowercase rep = true → lo = true)
    ∧ (has_uppercase rep = true → up = true)
    ∧ (has_digits rep = true → di = true)
    ∧ (has_symbols rep = true → sy = true)
    ∧ character_types rep ≤ class_count lo up di sy.
Proof.
  intros Hvalid.
  destruct (generate_password_valid _ _ _ _ _ _ _ r Hvalid) as (pw & r' & Hrun & _).
  destruct (check_password_strength_returns ascii_islower ascii_isupper
              ascii_isdigit pw r') as [rep Hrep].
  exists pw, r', rep. split; [done|]. split; [done|].
  destruct (analyze_generated _ _ _ _ _ _ _ _ _ _ _ _ _ Hrun Hrep)
    as (_ & Hl & Hu & Hd & Hs & _).
  apply check_password_strength_fields in Hrep as (_ & _ & _ & _ & _ & _ & Ht & _).
  split_and!; try done. rewrite Ht. unfold class_count.
  destruct (has_lowercase rep), (has_uppercase rep), (has_digits rep),
    (has_symbols rep), lo, up, di, sy; simpl; try lia;
    (by specialize (Hl eq_refl) || by specialize (Hu eq_refl)
     || by specialize (Hd eq_refl) || by specialize (Hs eq_refl)).
Qed.

Lemma analysis_shows_only_enabled_classes_witness :
  passes_validation 4 false true false false false false = true
  ∧ ∃ pw r' rep,
      generate_password 4 false true false false false false
        (rng_of_list [25; 0; 25; 0]) = Returned pw r'
      ∧ check_password_strength ascii_islower ascii_isupper ascii_isdigit pw r'
        = Returned rep r'
      ∧ (has_lowercase rep = true → false = true)
      ∧ (has_uppercase rep = true → true = true)
      ∧ (has_digits rep = true → false = true)
      ∧ (has_symbols rep = true → false = true)
      ∧ character_types rep ≤ class_count false true false false.
Proof.
  split; [by vm_compute|].
  apply analysis_shows_only_enabled_classes. by vm_compute.
Defined.

(** X14.  The score of a password generated with [min_of_each_type] is fixed
    by the arguments: one point for each of the lengths 8, 12 and 16 reached,
    one for three enabled classes and one more for four.  It is rated "Strong"
    exactly when the length is at least 16 with three classes or at least 12
    with four; the defaults of the command line (length 12, three classes)
    give the score 3. *)
Theorem score_of_guaranteed_password len lo up di sy ex (r : rng) :
  passes_validation len lo up di sy ex true = true →
  ∃ pw r' rep,
    generate_password len lo up di sy ex true r = Returned pw r'
    ∧ check_password_strength ascii_islower ascii_isupper ascii_isdigit pw r'
      = Returned rep r'
    ∧ strength_score rep
      = strength_score_of (Z.to_nat len) (class_count lo up di sy)
    ∧ (strength rep = "Strong"
       ↔ ((16 ≤ len)%Z ∧ 3 ≤ class_count lo up di sy)
         ∨ ((12 ≤ len)%Z ∧ class_count lo up di sy = 4)).
Proof.
  intros Hvalid. pose proof Hvalid as [Hlen _]%passes_validation_iff.
  destruct (generate_password_valid _ _ _ _ _ _ _ r Hvalid)
    as (pw & r' & Hrun & Hpwlen & _).
  destruct (check_password_strength_returns ascii_islower ascii_isupper
              ascii_isdigit pw r') as [rep Hrep].
  exists pw, r', rep. split; [done|]. split; [done|].
  destruct (analyze_generated _ _ _ _ _ _ _ _ _ _ _ _ _ Hrun Hrep)
    as (_ & _ & _ & _ & _ & Hflags).
  destruct (Hflags eq_refl) as (Hl & Hu & Hd & Hs).
  apply check_password_strength_fields in Hrep
    as (_ & _ & _ & _ & _ & _ & Ht & Hscore & Hlabel).
  assert (Htypes : character_types rep = class_count lo up di sy)
    by by rewrite Ht, Hl, Hu, Hd, Hs.
  rewrite Hscore, Htypes in Hlabel. rewrite Hscore, Htypes.
  replace (length pw) with (Z.to_nat len) in * by lia.
  split; [done|].
  unfold strength_score_of in Hlabel.
  destruct (Nat.leb_spec 8 (Z.to_nat len)), (Nat.leb_spec 12 (Z.to_nat len)),
    (Nat.leb_spec 16 (Z.to_nat len)),
    (Nat.leb_spec 3 (class_count lo up di sy)),
    (Nat.eqb_spec (class_count lo up di sy) 4);
    simpl in Hlabel; injection Hlabel as <-;
    (split; [try discriminate; try lia; intros _|intros ?; try done; lia]);
    lia.
Qed.

Lemma score_of_guaranteed_password_witness :
  passes_validation 12 true true true false false true = true
  ∧ ∃ pw r' rep,
      generate_password 12 true true true false false true
        (rng_of_list [9; 8; 7; 6; 5; 4; 3; 2; 1]) = Returned pw r'
      ∧ check_password_strength ascii_islower ascii_isupper ascii_isdigit pw r'
        = Returned rep r'
      ∧ strength_score rep
        = strength_score_of (Z.to_nat 12) (class_count true true true false)
      ∧ (strength rep = "Strong"
         ↔ ((16 ≤ 12)%Z ∧ 3 ≤ class_count true true true false)
           ∨ ((12 ≤ 12)%Z ∧ class_count true true true false = 4)).
Proof.
  split; [by vm_compute|].
  apply score_of_guaranteed_password. by vm_compute.
Defined.

(** ** The command line *)

(** [if args.analyze:] holds: the option was given a non-empty string. *)
Definition analysis_requested (args : namespace) : bool :=
  match arg_analyze args with
  | Some (_ :: _) => true
  | _ => false
  end.

(** An empty range: no call is made. *)
Lemma batch_empty_range count kw r :
  (count < 1)%Z → generate_multiple_passwords count kw r = Returned [] r.
Proof.
  intros Hcount. unfold generate_multiple_passwords, range.
  by replace (Z.to_nat count) with 0 by lia.
Qed.

Section MainFacts.

Variables islower isupper isdigit : ascii → bool.

Lemma main_generation args r :
  analysis_requested args = false →
  main islower isupper isdigit args r
  = match generate_multiple_passwords (arg_count args) (main_kwargs args) r with
    | Returned passwords _ =>
        if (arg_count args =? 1)%Z then
          match passwords !! 0 with
          | Some password => Exit [to_string password] (Some 0%Z)
          | None => Uncaught (IndexError "list index out of range")
          end
        else
          Exit (imap (λ i password, numbered_line (S i) password) passwords)
               (Some 0%Z)
    | Raised (ValueError msg) => Exit ["Error: " +:+ msg] (Some 1%Z)
    | Raised e => Uncaught e
    end.
Proof.
  unfold analysis_requested, main.
  by destruct (arg_analyze args) as [[|c s]|].
Qed.

(** The error path: the batch raises what a single call raises, which is one
    of the two [ValueError]s. *)
Lemma main_invalid args r :
  analysis_requested args = false →
  (1 ≤ arg_count args)%Z →
  kwargs_pass_validation (main_kwargs args) = false →
  ∃ msg,
    raised (generate_password_kw (main_kwargs args) r) = Some (ValueError msg)
    ∧ main islower isupper isdigit args r = Exit ["Error: " +:+ msg] (Some 1%Z).
Proof.
  intros Hmode Hcount Hinvalid. rewrite main_generation by done.
  destruct (generate_password_kw (main_kwargs args) r) as [pw r1|e] eqn:Hcall.
  { assert (kwargs_pass_validation (main_kwargs args) = true); [|congruence].
    apply (generate_password_returns_iff _ _ _ _ _ _ _ r). by exists pw, r1. }
  assert (Hbatch : generate_multiple_passwords (arg_count args)
                     (main_kwargs args) r = Raised e).
  { unfold generate_multiple_passwords, range.
    destruct (Z.to_nat (arg_count args)) as [|n] eqn:Hn; [lia|].
    simpl. by erewrite bind_raised by exact Hcall. }
  rewrite Hbatch.
  apply generate_password_raises in Hcall as [->| ->]; by eexists.
Qed.

Lemma main_valid args r :
  analysis_requested args = false →
  kwargs_pass_validation (main_kwargs args) = true →
  ∃ passwords r',
    generate_multiple_passwords (arg_count args) (main_kwargs args) r
    = Returned passwords r'
    ∧ length passwords = Z.to_nat (arg_count args)
    ∧ Forall (λ pw : str, Z.of_nat (length pw) = arg_length args) passwords
    ∧ main islower isupper isdigit args r
      = Exit (if (arg_count args =? 1)%Z then to_string <$> passwords
              else imap (λ i password, numbered_line (S i) password) passwords)
             (Some 0%Z).
Proof.
  intros Hmode Hvalid. rewrite main_generation by done.
  destruct (batch_returns (arg_count args) _ r Hvalid)
    as (pws & r' & Hrun & Hlen & Hall & _).
  exists pws, r'. rewrite Hrun. split_and!; [done..| |].
  - eapply Forall_impl; [exact Hall|]. by intros pw [? _].
  - destruct (Z.eqb_spec (arg_count args) 1) as [Hone|_]; [|done].
    rewrite Hone in Hlen. by destruct pws as [|pw [|]].
Qed.


End MainFacts.

(** Arguments for the examples: the defaults of the parser. *)
Definition default_args : namespace :=
  {| arg_length := 12; arg_count := 1;
     arg_no_lowercase := false; arg_no_uppercase := false;
     arg_no_digits := false; arg_include_symbols := false;
     arg_exclude_ambiguous := false; arg_no_min_each := false;
     arg_analyze := None |}.


(** X16.  When no analysis is requested, at least one password is asked for
    and the arguments fail validation, [main] prints the single line "Error: "
    followed by the message of the error, and returns 1; the message is the
    one of the length check for a length below 4, else the one of the class
    check. *)
Theorem main_reports_validation_error
    (islower isupper isdigit : ascii → bool) (args : namespace) (r : rng) :
  analysis_requested args = false →
  (1 ≤ arg_count args)%Z →
  kwargs_pass_validation (main_kwargs args) = false →
  main islower isupper isdigit args r
  = Exit [if (arg_length args <? 4)%Z
          then "Error: Password length must be at least 4 characters"
          else "Error: At least one character type must be included"]
         (Some 1%Z).
Proof.
  intros Hmode Hcount Hinvalid.
  destruct (main_invalid islower isupper isdigit args r Hmode Hcount Hinvalid)
    as (msg & Hraised & ->).
  unfold generate_password_kw in Hraised. simpl in Hraised.
  destruct (generate_password_cases (arg_length args)
              (negb (arg_no_lowercase args)) (negb (arg_no_uppercase args))
              (negb (arg_no_digits args)) (arg_include_symbols args)
              (arg_exclude_ambiguous args) (negb (arg_no_min_each args)) r)
    as [[Hlen H]|[(Hlen & _ & H)|(_ & pw & r' & H)]];
    rewrite H in Hraised; simpl in Hraised.
  - injection Hraised as <-. by rewrite (proj2 (Z.ltb_lt _ _) Hlen).
  - injection Hraised as <-. by rewrite (proj2 (Z.ltb_ge _ _) Hlen).
  - done.
Qed.

(** Two passwords asked for with every class switched off, and an empty
    string given to the analysis option. *)
Definition args_without_class : namespace :=
  {| arg_length := 12; arg_count := 2;
     arg_no_lowercase := true; arg_no_uppercase := true;
     arg_no_digits := true; arg_include_symbols := false;
     arg_exclude_ambiguous := false; arg_no_min_each := false;
     arg_analyze := Some [] |}.

Lemma main_reports_validation_error_witness :
  analysis_requested args_without_class = false
  ∧ (1 ≤ arg_count args_without_class)%Z
  ∧ kwargs_pass_validation (main_kwargs args_without_class) = false
  ∧ main ascii_islower ascii_isupper ascii_isdigit args_without_class
      (rng_of_list [])
    = Exit ["Error: At least one character type must be included"] (Some 1%Z).
Proof.
  split_and!; [done|done|by vm_compute|].
  by apply (main_reports_validation_error ascii_islower ascii_isupper
              ascii_isdigit args_without_class (rng_of_list [])).
Defined.

(** X17.  With a count below 1 and no analysis requested, [main] prints
    nothing and returns 0, also when the other arguments would fail
    validation: they are never checked. *)
Theorem main_prints_nothing_for_no_count
    (islower isupper isdigit : ascii → bool) (args : namespace) (r : rng) :
  analysis_requested args = false →
  (arg_count args < 1)%Z →
  main islower isupper isdigit args r = Exit [] (Some 0%Z).
Proof.
  intros Hmode Hcount. rewrite main_generation by done.
  rewrite batch_empty_range by done.
  by destruct (Z.eqb_spec (arg_count args) 1); [lia|].
Qed.

(** No password asked for, with a length and classes that a call would
    reject. *)
Definition args_without_count : namespace :=
  {| arg_length := 2; arg_count := 0;
     arg_no_lowercase := true; arg_no_uppercase := true;
     arg_no_digits := true; arg_include_symbols := false;
     arg_exclude_ambiguous := false; arg_no_min_each := false;
     arg_analyze := None |}.

Lemma main_prints_nothing_for_no_count_witness :
  analysis_requested args_without_count = false
  ∧ (arg_count args_without_count < 1)%Z
  ∧ main ascii_islower ascii_isupper ascii_isdigit args_without_count
      (rng_of_list [])
    = Exit [] (Some 0%Z).
Proof.
  split_and!; [done|done|].
  by apply main_prints_nothing_for_no_count.
Defined.

(** X18.  With the count 1, no analysis requested and arguments that pass
    validation, [main] prints one line, the bare password that
    [generate_password] returns for these arguments on the same random source,
    and returns 0. *)
Theorem main_prints_single_password
    (islower isupper isdigit : ascii → bool) (args : namespace) (r : rng) :
  analysis_requested args = false →
  arg_count args = 1%Z →
  kwargs_pass_validation (main_kwargs args) = true →
  ∃ pw,
    returned (generate_password_kw (main_kwargs args) r) = Some pw
    ∧ Z.of_nat (length pw) = arg_length args
    ∧ main islower isupper isdigit args r = Exit [to_string pw] (Some 0%Z).
Proof.
  intros Hmode Hcount Hvalid. rewrite main_generation by done.
  destruct (generate_password_valid _ _ _ _ _ _ _ r Hvalid)
    as (pw & r' & Hrun & Hlen & _).
  change (generate_password_kw (main_kwargs args) r = Returned pw r') in Hrun.
  exists pw. rewrite Hrun. split_and!; [done..|].
  unfold generate_multiple_passwords, range. rewrite Hcount.
  change (seq 0 (Z.to_nat 1)) with [0]. cbn [collect]. by run Hrun.
Qed.

Lemma main_prints_single_password_witness :
  analysis_requested default_args = false
  ∧ arg_count default_args = 1%Z
  ∧ kwargs_pass_validation (main_kwargs default_args) = true
  ∧ ∃ pw,
      returned (generate_password_kw (main_kwargs default_args)
                  (rng_of_list [7; 7; 7])) = Some pw
      ∧ Z.of_nat (length pw) = arg_length default_args
      ∧ main ascii_islower ascii_isupper ascii_isdigit default_args
          (rng_of_list [7; 7; 7]) = Exit [to_string pw] (Some 0%Z).
Proof.
  split_and!; [done|done|by vm_compute|].
  apply main_prints_single_password; [done|done|by vm_compute].
Defined.

(** X19.  With a count other than 1, no analysis requested and arguments that
    pass validation, [main] prints one line per password, [count] lines in
    all, and returns 0; line number i, counted from 1, is i right-aligned in
    two columns, a colon, a space and a password of the requested length. *)
Theorem main_prints_numbered_passwords
    (islower isupper isdigit : ascii → bool) (args : namespace) (r : rng) :
  analysis_requested args = false →
  arg_count args ≠ 1%Z →
  kwargs_pass_validation (main_kwargs args) = true →
  ∃ stdout,
    main islower isupper isdigit args r = Exit stdout (Some 0%Z)
    ∧ length stdout = Z.to_nat (arg_count args)
    ∧ ∀ i line, stdout !! i = Some line →
        ∃ pw : str,
          line = rjust 2 (decimal (S i)) +:+ ": " +:+ to_string pw
          ∧ Z.of_nat (length pw) = arg_length args.
Proof.
  intros Hmode Hcount Hvalid.
  destruct (main_valid islower isupper isdigit args r Hmode Hvalid)
    as (pws & r' & _ & Hlen & Hall & ->).
  destruct (Z.eqb_spec (arg_count args) 1) as [?|_]; [done|].
  eexists. split; [done|]. split; [by rewrite length_imap|].
  intros i line (pw & Hpw & ->)%list_lookup_imap_Some.
  exists pw. split; [done|].
  rewrite Forall_forall in Hall. by eapply Hall, list_elem_of_lookup_2.
Qed.

(** Eleven passwords of the default shape. *)
Definition args_eleven : namespace :=
  {| arg_length := 12; arg_count := 11;
     arg_no_lowercase := false; arg_no_uppercase := false;
     arg_no_digits := false; arg_include_symbols := true;
     arg_exclude_ambiguous := true; arg_no_min_each := false;
     arg_analyze := None |}.

Lemma main_prints_numbered_passwords_witness :
  analysis_requested args_eleven = false
  ∧ arg_count args_eleven ≠ 1%Z
  ∧ kwargs_pass_validation (main_kwargs args_eleven) = true
  ∧ ∃ stdout,
      main ascii_islower ascii_isupper ascii_isdigit args_eleven
        (rng_of_list [2; 3; 5; 7; 11]) = Exit stdout (Some 0%Z)
      ∧ length stdout = Z.to_nat (arg_count args_eleven)
      ∧ ∀ i line, stdout !! i = Some line →
          ∃ pw : str,
            line = rjust 2 (decimal (S i)) +:+ ": " +:+ to_string pw
            ∧ Z.of_nat (length pw) = arg_length args_eleven.
Proof.
  split_and!; [done|done|by vm_compute|].
  apply main_prints_numbered_passwords; [done|done|by vm_compute].
Defined.

(** The field of the line number is two characters wide up to 99 and as wide
    as the number beyond. *)
Example numbered_line_examples :
  numbered_line 1 (lit "abcd") = " 1: abcd"
  ∧ numbered_line 10 (lit "abcd") = "10: abcd"
  ∧ numbered_line 100 (lit "abcd") = "100: abcd".
Proof. by vm_compute. Qed.




(** The analysis of "Tr0ub4dor&3", asked for together with a length and a
    count that generation would reject. *)
Definition args_analysis : namespace :=
  {| arg_length := 1; arg_count := (-5);
     arg_no_lowercase := true; arg_no_uppercase := true;
     arg_no_digits := true; arg_include_symbols := false;
     arg_exclude_ambiguous := false; arg_no_min_each := false;
     arg_analyze := Some (lit "Tr0ub4dor&3") |}.


Example main_analysis_output :
  main ascii_islower ascii_isupper ascii_isdigit args_analysis (rng_of_list [])
  = Exit [ "Password Analysis for: Tr0ub4dor&3";
           "Length: 11";
           "Contains lowercase: True";
           "Contains uppercase: True";
           "Contains digits: True";
           "Contains symbols: True";
           "Character types: 4/4";
           "Strength: Good (3/5)" ] None.
Proof. by vm_compute. Qed.

(** ** The passwords of a batch use disjoint draws *)

(** The source [r] with its next [n] draws skipped. *)
Definition skip (n : nat) (r : rng) : rng :=
  {| tape := tape r; cursor := cursor r + n |}.

Lemma after_draws_skip n r r' : after_draws n r r' → r' = skip n r.
Proof. destruct r'. intros [Ht Hc]. simpl in *. unfold skip. by subst. Qed.

Lemma skip_skip n m r : skip m (skip n r) = skip (n + m) r.
Proof. unfold skip. simpl. f_equal. lia. Qed.

Lemma skip_0 r : skip 0 r = r.
Proof. destruct r. unfold skip. simpl. f_equal. lia. Qed.

Lemma collect_lookup {B} (e : M B) n (xs : list nat) r bs r' :
  (∀ r b r', e r = Returned b r' → after_draws n r r') →
  collect xs (λ _, e) r = Returned bs r' →
  ∀ i b, bs !! i = Some b → returned (e (skip (i * n) r)) = Some b.
Proof.
  intros He. revert r bs r'. induction xs as [|x xs IH]; intros r bs r'; simpl.
  - by intros [= <- _] i b.
  - intros (b0 & r1 & H1 & (bs' & r2 & Hrest & [= <- _])%bind_inv)%bind_inv.
    intros [|i] b; simpl.
    + intros [= <-]. by rewrite skip_0, H1.
    + intros Hb. pose proof (IH _ _ _ Hrest i b Hb) as Hi.
      rewrite (after_draws_skip _ _ _ (He _ _ _ H1)), skip_skip in Hi.
      exact Hi.
Qed.

(** X22.  The passwords of a batch are generated one after the other from
    disjoint stretches of the random source: password number i (from 0) is
    what a single call returns on the source with the draws of the i earlier
    passwords skipped. *)
Theorem generate_multiple_passwords_in_sequence
    (count : Z) (kw : kwargs) (r : rng) :
  kwargs_pass_validation kw = true →
  ∃ passwords r',
    generate_multiple_passwords count kw r = Returned passwords r'
    ∧ ∀ i pw, passwords !! i = Some pw →
        returned (generate_password_kw kw (skip (i * kwargs_draws kw) r))
        = Some pw.
Proof.
  intros Hvalid.
  destruct (batch_returns count kw r Hvalid) as (pws & r' & Hrun & _).
  exists pws, r'. split; [done|].
  eapply collect_lookup; [|exact Hrun].
  intros r0 pw r0'. apply (batch_call_draws kw 0).
Qed.

Lemma generate_multiple_passwords_in_sequence_witness :
  kwargs_pass_validation no_kwargs = true
  ∧ ∃ passwords r',
      generate_multiple_passwords 3 no_kwargs (rng_of_list [6; 28; 496])
      = Returned passwords r'
      ∧ ∀ i pw, passwords !! i = Some pw →
          returned (generate_password_kw no_kwargs
                      (skip (i * kwargs_draws no_kwargs)
                            (rng_of_list [6; 28; 496])))
          = Some pw.
Proof.
  split; [by vm_compute|].
  apply generate_multiple_passwords_in_sequence. by vm_compute.
Defined.
